(** * ARCampus: geospatial anchoring and heading calibration

    A shallow embedding of
      - [campus-ar/src/App.jsx] (the geodetic projector [latLonToOffset],
        the hook [useDeviceHeading], the component [App]),
      - the earlier variant of the same component (two entities, offsets
        relative to the first fix), and
      - [campus-ar-backend/server.js] (the DELETE route),
    followed by the properties established about them.

    Number model.  A JavaScript number is modelled as a real number:
    [+], [-], [*] are the field operations, [Math.PI] is [PI] and
    [Math.cos] is [cos].  Rounding, infinities and NaN are outside the
    model, except in [Button], where [Math.floor] follows a product and
    the rounding of that product is a parameter of the model.  A property
    of a DOM event that may be absent ([undefined] or [null]) is an
    [option].

    Of the rendered tree only the scene root and the elements that carry
    the position of an object are kept; [alert] and console output, the
    compass overlay and the AR session button are left out. *)

From Stdlib Require Import Reals Lra Lia List Ascii String Bool Arith ZArith.
From Stdlib Require Import Machin Sorted Permutation.
From stdpp Require Import gmap strings.
Import ListNotations.

Abbreviation number := R (only parsing).

(** [[x, y, z]] as built by [latLonToOffset] and passed as [position] or
    [rotation]. *)
Definition vec3 : Type := (number * number * number)%type.

Definition vx (v : vec3) : number := fst (fst v).
Definition vy (v : vec3) : number := snd (fst v).
Definition vz (v : vec3) : number := snd v.

(** JavaScript truthiness of a value that is a number, [null] or
    [undefined]: only a non-zero number is truthy. *)
Definition truthy (v : option number) : bool :=
  match v with
  | Some x => if Req_dec_T x 0%R then false else true
  | None => false
  end.

(** [v || 0] *)
Definition orZero (v : option number) : number :=
  match v with
  | Some x => if truthy v then x else 0%R
  | None => 0%R
  end.

(** [Object.is] on a state value that is a number or [null]. *)
Definition objectIs (a b : option number) : bool :=
  match a, b with
  | None, None => true
  | Some x, Some y => if Req_dec_T x y then true else false
  | _, _ => false
  end.

(** ** Geodetic projector *)

Module Geo.
Local Open Scope R_scope.

Definition earthRadius : number := 6371000.

Definition latLonToOffset (lat0 lon0 lat lon : number) : vec3 :=
  let dLat := (lat - lat0) * (PI / 180) in
  let dLon := (lon - lon0) * (PI / 180) in
  let x := dLon * earthRadius * cos (lat0 * PI / 180) in
  let z := dLat * earthRadius in
  (x, 0, - z).

(** [THREE.MathUtils.degToRad] and [radToDeg] (three.js):
    [degrees * DEG2RAD] with [DEG2RAD = Math.PI / 180], and
    [radians * RAD2DEG] with [RAD2DEG = 180 / Math.PI]. *)
Definition degToRad (degrees : number) : number := degrees * (PI / 180).
Definition radToDeg (radians : number) : number := radians * (180 / PI).

End Geo.

(** ** Orientation calibrator: the hook [useDeviceHeading] *)

Module Calibrator.
Local Open Scope R_scope.

(** The two event types the hook listens to on [window]. *)
Inductive eventType : Type :=
| deviceorientationabsolute
| deviceorientation.

Definition eventType_eqb (a b : eventType) : bool :=
  match a, b with
  | deviceorientationabsolute, deviceorientationabsolute => true
  | deviceorientation, deviceorientation => true
  | _, _ => false
  end.

(** The fields of a [DeviceOrientationEvent] that [handleOrientation]
    reads.  [webkitCompassHeading] is [None] where the platform does not
    define it ([undefined]); [alpha] is a nullable attribute and is [None]
    when it is [null]. *)
Record sample : Type := {
  webkitCompassHeading : option number;
  alpha : option number
}.

(** The local [compass] of [handleOrientation] after the [if]/[else if];
    [None] is [undefined]. *)
Definition compassOf (e : sample) : option number :=
  if truthy (webkitCompassHeading e) then webkitCompassHeading e
  else match alpha e with
       | Some a => Some (360 - a)
       | None => None
       end.

(** One [handleOrientation] closure.  Every run of the effect creates a new
    function object, told apart by [effectRun]; the closure captures the
    [initialHeading] of the render the effect belongs to. *)
Record closure : Type := {
  effectRun : nat;
  captured : option number
}.

Definition listeners : Type := list (eventType * closure).

Definition sameListener (ty : eventType) (h : closure)
  (entry : eventType * closure) : bool :=
  eventType_eqb ty (fst entry) && Nat.eqb (effectRun h) (effectRun (snd entry)).

(** [window.addEventListener(ty, h, true)]: a listener already registered
    for the same type and function is not added twice. *)
Definition addEventListener (ty : eventType) (h : closure) (w : listeners)
  : listeners :=
  if existsb (sameListener ty h) w then w else w ++ [(ty, h)].

(** [window.removeEventListener(ty, h, true)]: no effect when absent. *)
Definition removeEventListener (ty : eventType) (h : closure) (w : listeners)
  : listeners :=
  List.filter (fun entry => negb (sameListener ty h entry)) w.

(** State of one mounted [useDeviceHeading]:
    [initialHeading] is the value of the [useState] cell in the last render,
    [queued] the argument of a [setInitialHeading] call not rendered yet,
    [window] the listeners registered on [window],
    [live] the closure of the last effect run (what its cleanup removes). *)
Record hook : Type := {
  initialHeading : option number;
  queued : option number;
  window : listeners;
  live : option closure;
  nextRun : nat
}.

Definition handleOrientation (self : closure) (e : sample) (hk : hook) : hook :=
  match compassOf e with
  | Some compass =>
      match captured self with
      | None =>
          {| initialHeading := initialHeading hk;
             queued := Some compass;
             window :=
               removeEventListener deviceorientation self
                 (removeEventListener deviceorientationabsolute self (window hk));
             live := live hk;
             nextRun := nextRun hk |}
      | Some _ => hk
      end
  | None => hk
  end.

(** The body of the effect: a new closure over the current
    [initialHeading], registered for both event types. *)
Definition effect (hk : hook) : hook :=
  let h := {| effectRun := nextRun hk; captured := initialHeading hk |} in
  {| initialHeading := initialHeading hk;
     queued := queued hk;
     window :=
       addEventListener deviceorientation h
         (addEventListener deviceorientationabsolute h (window hk));
     live := Some h;
     nextRun := S (nextRun hk) |}.

(** The function the effect returns. *)
Definition cleanup (hk : hook) : hook :=
  match live hk with
  | Some h =>
      {| initialHeading := initialHeading hk;
         queued := queued hk;
         window :=
           removeEventListener deviceorientation h
             (removeEventListener deviceorientationabsolute h (window hk));
         live := None;
         nextRun := nextRun hk |}
  | None => hk
  end.

(** First render and first effect run. *)
Definition mount : hook :=
  effect {| initialHeading := None; queued := None; window := [];
            live := None; nextRun := 0 |}.

(** A browser event of type [ty]: the listeners registered for [ty] when
    the dispatch starts are called in order; one removed meanwhile is
    skipped. *)
Definition dispatch (ty : eventType) (e : sample) (hk : hook) : hook :=
  fold_left
    (fun acc entry =>
       if eventType_eqb ty (fst entry)
          && existsb (sameListener ty (snd entry)) (window acc)
       then handleOrientation (snd entry) e acc
       else acc)
    (window hk) hk.

(** React applies a queued [setInitialHeading]: nothing happens when the
    value is the one already rendered; otherwise the component renders with
    the new value and, the dependency [initialHeading] having changed, the
    old effect is cleaned up and the effect runs again. *)
Definition rerender (hk : hook) : hook :=
  match queued hk with
  | None => hk
  | Some v =>
      if objectIs (initialHeading hk) (Some v)
      then {| initialHeading := initialHeading hk; queued := None;
              window := window hk; live := live hk; nextRun := nextRun hk |}
      else
        let cleaned := cleanup hk in
        effect {| initialHeading := Some v; queued := None;
                  window := window cleaned; live := live cleaned;
                  nextRun := nextRun cleaned |}
  end.

(** What the hook returns once pending updates are rendered. *)
Definition useDeviceHeading (hk : hook) : option number :=
  initialHeading (rerender hk).

Inductive action : Type :=
| Fire (ty : eventType) (e : sample)
| Render.

Definition step (hk : hook) (a : action) : hook :=
  match a with
  | Fire ty e => dispatch ty e hk
  | Render => rerender hk
  end.

Definition run (tr : list action) (hk : hook) : hook := fold_left step tr hk.

(** The compass value of the first usable sample of a trace. *)
Fixpoint firstCompass (tr : list action) : option number :=
  match tr with
  | [] => None
  | Fire _ e :: rest =>
      match compassOf e with
      | Some c => Some c
      | None => firstCompass rest
      end
  | Render :: rest => firstCompass rest
  end.

(** The three states a mounted hook can be in: [mount], a value queued by
    the handler, and the value rendered. *)
Definition firstClosure : closure := {| effectRun := 0; captured := None |}.

Definition secondClosure (v : number) : closure :=
  {| effectRun := 1; captured := Some v |}.

Definition pendingOf (v : number) : hook :=
  {| initialHeading := None; queued := Some v; window := [];
     live := Some firstClosure; nextRun := 1 |}.

Definition calibratedOf (v : number) : hook :=
  {| initialHeading := Some v; queued := None;
     window := [ (deviceorientationabsolute, secondClosure v);
                 (deviceorientation, secondClosure v) ];
     live := Some (secondClosure v); nextRun := 2 |}.

Inductive phase : hook -> Prop :=
| uncalibrated : phase mount
| pending (v : number) : phase (pendingOf v)
| calibrated (v : number) : phase (calibratedOf v).

End Calibrator.

(** ** The component [App] (campus-ar/src/App.jsx) *)

Module App.
Local Open Scope R_scope.

Definition WORLD_ORIGIN : number * number := (12.7489708, 80.1988392).

(** An element of the [objects] state: [{ lat, lon, type }]. *)
Record object : Type := {
  lat : number;
  lon : number;
  type : string
}.

(** The state cells of [App]: [origin], [objects], the hook behind
    [heading], and the component's own [initialHeading]. *)
Record state : Type := {
  origin : option (number * number);
  objects : list object;
  hookState : Calibrator.hook;
  initialHeading : option number
}.

(** [const heading = useDeviceHeading()] in the current render. *)
Definition heading (st : state) : option number :=
  Calibrator.initialHeading (hookState st).

(** First render: the state initialisers and the hook mounted. *)
Definition mount : state :=
  {| origin := None; objects := []; hookState := Calibrator.mount;
     initialHeading := None |}.

(** The success callback given to [getCurrentPosition], with
    [latitude] and [longitude] taken from [pos.coords]. *)
Definition onPosition (latitude longitude : number) (st : state) : state :=
  {| origin := Some (latitude, longitude);
     objects :=
       [ {| lat := latitude; lon := longitude; type := "user" |};
         {| lat := latitude + 0.00005; lon := longitude; type := "monk" |};
         {| lat := latitude + 0.0001; lon := longitude + 0.0001; type := "monk" |};
         {| lat := latitude + 0.00001; lon := longitude + 0.00001; type := "monk" |};
         {| lat := latitude + 0.00002; lon := longitude + 0.00002; type := "monk" |};
         {| lat := latitude; lon := longitude + 0.00005; type := "button" |} ];
     hookState := hookState st;
     initialHeading := initialHeading st |}.

(** The effect "Capture initial heading once". *)
Definition headingEffect (st : state) : state :=
  if truthy (heading st) &&
     match initialHeading st with None => true | Some _ => false end
  then {| origin := origin st; objects := objects st;
          hookState := hookState st;
          initialHeading := heading st |}
  else st.

(** What [App] returns for the scene: the root [<group rotation=...>] and,
    for every object, the element that carries its [position].  An element
    has a [rotation] only when the JSX passes one. *)
Inductive tag : Type := group | mesh | Button.

Record element : Type := {
  elementTag : tag;
  key : nat;
  position : vec3;
  rotation : option vec3
}.

Record scene : Type := {
  rootRotation : vec3;
  children : list element
}.

Definition renderObject (i : nat) (obj : object) : element :=
  let p := Geo.latLonToOffset (fst WORLD_ORIGIN) (snd WORLD_ORIGIN)
             (lat obj) (lon obj) in
  if String.eqb (type obj) "monk" then
    {| elementTag := group; key := i; position := p; rotation := None |}
  else if String.eqb (type obj) "user" then
    {| elementTag := mesh; key := i; position := p; rotation := None |}
  else
    {| elementTag := Button; key := i; position := p; rotation := None |}.

(** [objects.map((obj, i) => ...)] *)
Fixpoint mapIndexed {A B : Type} (f : nat -> A -> B) (i : nat) (l : list A)
  : list B :=
  match l with
  | [] => []
  | a :: rest => f i a :: mapIndexed f (S i) rest
  end.

(** [None] is the placeholder "Getting GPS…" returned while [origin] is
    [null]. *)
Definition render (st : state) : option scene :=
  match origin st with
  | None => None
  | Some _ =>
      Some {| rootRotation :=
                (0, - Geo.degToRad (orZero (initialHeading st)), 0);
              children := mapIndexed renderObject 0 (objects st) |}
  end.

(** What can happen to a mounted [App]: an orientation event, a render of
    the hook, the heading effect, and a call of the success or of the error
    callback given to [getCurrentPosition] (the error callback only logs). *)
Inductive action : Type :=
| Orientation (ty : Calibrator.eventType) (e : Calibrator.sample)
| RenderHook
| HeadingEffect
| Position (latitude longitude : number)
| PositionError.

Definition withHook (st : state) (hk : Calibrator.hook) : state :=
  {| origin := origin st; objects := objects st; hookState := hk;
     initialHeading := initialHeading st |}.

Definition step (st : state) (a : action) : state :=
  match a with
  | Orientation ty e => withHook st (Calibrator.dispatch ty e (hookState st))
  | RenderHook => withHook st (Calibrator.rerender (hookState st))
  | HeadingEffect => headingEffect st
  | Position latitude longitude => onPosition latitude longitude st
  | PositionError => st
  end.

Definition run (tr : list action) (st : state) : state := fold_left step tr st.

(** All pending renders and effects flushed. *)
Definition settle (st : state) : state :=
  headingEffect (withHook st (Calibrator.rerender (hookState st))).

(** The yaw of the scene root, read back in degrees. *)
Definition sceneYawDegrees (sc : scene) : number :=
  Geo.radToDeg (vy (rootRotation sc)).

(** What relates the two copies of the heading: the hook is in one of its
    three states, and [initialHeading] of [App] is [null] or the truthy
    value the hook returned. *)
Definition coherent (st : state) : Prop :=
  Calibrator.phase (hookState st) /\
  (initialHeading st = None \/
   (initialHeading st = heading st /\ truthy (heading st) = true)).

End App.

(** ** The earlier variant of [App]

    Same state cells and same hook; the fix creates two objects and the
    offsets are taken from the [origin] state. *)

Module Legacy.
Local Open Scope R_scope.
Import App.

Definition onPosition (latitude longitude : number) (st : state) : state :=
  {| origin := Some (latitude, longitude);
     objects :=
       [ {| lat := latitude + 0.00005; lon := longitude; type := "monk" |};
         {| lat := latitude; lon := longitude + 0.00005; type := "button" |} ];
     hookState := hookState st;
     initialHeading := initialHeading st |}.

Definition renderObject (origin : number * number) (i : nat) (obj : object)
  : element :=
  let p := Geo.latLonToOffset (fst origin) (snd origin) (lat obj) (lon obj) in
  if String.eqb (type obj) "monk" then
    {| elementTag := group; key := i; position := p; rotation := None |}
  else
    {| elementTag := Button; key := i; position := p; rotation := None |}.

Definition render (st : state) : option scene :=
  match origin st with
  | None => None
  | Some o =>
      Some {| rootRotation :=
                (0, - Geo.degToRad (orZero (initialHeading st)), 0);
              children := mapIndexed (renderObject o) 0 (objects st) |}
  end.

End Legacy.

(** ** The backend route [DELETE /api/arpoints/:id] (server.js) *)

Module Backend.

(** A stored document of the model [ARPoint], without its [_id].  Fields
    the schema gives no default may be missing. *)
Record ARPoint : Type := {
  name : option string;
  modelUrl : option string;
  modelType : string;
  latitude : option number;
  longitude : option number;
  createdAt : Z
}.

(** The collection, keyed by the 96-bit value of [_id]. *)
Definition ObjectId : Type := N.

Definition hexDigit (c : ascii) : option N :=
  let n := N_of_ascii c in
  if (48 <=? n)%N && (n <=? 57)%N then Some (n - 48)%N
  else if (97 <=? n)%N && (n <=? 102)%N then Some (n - 87)%N
  else if (65 <=? n)%N && (n <=? 70)%N then Some (n - 55)%N
  else None.

Fixpoint hexValue (acc : N) (s : string) : option N :=
  match s with
  | EmptyString => Some acc
  | String c rest =>
      match hexDigit c with
      | Some d => hexValue (16 * acc + d)%N rest
      | None => None
      end
  end.

(** Mongoose's cast of a route parameter to an [ObjectId]: a string of 24
    hexadecimal digits, in either case, is accepted by every version; any
    other string is taken to be a [CastError].  (Versions up to 7 also
    accept a string of 12 characters; the repository pins no version, and
    below only ids that cast are reasoned about.) *)
Definition castObjectId (id : string) : option ObjectId :=
  if Nat.eqb (String.length id) 24 then hexValue 0%N id else None.

Inductive outcome (A : Type) : Type :=
| resolved (a : A)
| rejected (message : string).
Arguments resolved {A} a.
Arguments rejected {A} message.

(** [ARPoint.findByIdAndDelete(id)] as Mongoose documents it: the promise
    rejects when [id] does not cast; otherwise the document with that [_id]
    is removed and returned, or [null] is returned and nothing is removed.
    The text of the rejection stands for Mongoose's longer [CastError]
    message, whose wording is not modelled. *)
Definition findByIdAndDelete (id : string) (db : gmap N ARPoint)
  : outcome (option ARPoint) * gmap N ARPoint :=
  match castObjectId id with
  | None => (rejected "Cast to ObjectId failed", db)
  | Some oid => (resolved (db !! oid), delete oid db)
  end.

(** What the handler sends: the status code and the [message] of the JSON
    body. *)
Record response : Type := {
  status : nat;
  message : string
}.

(** The handler of [app.delete('/api/arpoints/:id', ...)], [id] being
    [req.params.id]. *)
Definition deleteARPoint (id : string) (db : gmap N ARPoint)
  : response * gmap N ARPoint :=
  match findByIdAndDelete id db with
  | (resolved _, db') =>
      ({| status := 200; message := "Point deleted successfully" |}, db')
  | (rejected err, db') =>
      ({| status := 500; message := err |}, db')
  end.

End Backend.

(** ** The compass overlay and the whole output of [App] *)

Module Overlay.
Local Open Scope R_scope.

(** The text under the dial: ["Calibrating…"] or the heading followed by
    the degree sign ([toFixed(1)] is not modelled, the number is kept). *)
Inductive label : Type :=
| Calibrating
| Degrees (heading : number).

(** What [CompassOverlay] draws: the angle of the needle,
    [rotate(${heading || 0}deg)], and the text. *)
Record overlay : Type := {
  needle : number;
  text : label
}.

Definition CompassOverlay (heading : option number) : overlay :=
  {| needle := orZero heading;
     text := match heading with
             | None => Calibrating
             | Some h => Degrees h
             end |}.

(** What [App] returns: the placeholder while [origin] is [null], otherwise
    the scene together with the overlay of the hook's [heading]. *)
Inductive output : Type :=
| GettingGPS
| Shown (sc : App.scene) (ov : overlay).

Definition view (st : App.state) : output :=
  match App.render st with
  | None => GettingGPS
  | Some sc => Shown sc (CompassOverlay (App.heading st))
  end.

(** The part of a trace of [App] that reaches the hook. *)
Fixpoint hookTrace (tr : list App.action) : list Calibrator.action :=
  match tr with
  | [] => []
  | App.Orientation ty e :: rest => Calibrator.Fire ty e :: hookTrace rest
  | App.RenderHook :: rest => Calibrator.Render :: hookTrace rest
  | _ :: rest => hookTrace rest
  end.

(** The coordinate of the last fix of a trace, [None] when it has none. *)
Fixpoint lastFix (tr : list App.action) : option (number * number) :=
  match tr with
  | [] => None
  | a :: rest =>
      match lastFix rest with
      | Some found => Some found
      | None =>
          match a with
          | App.Position latitude longitude => Some (latitude, longitude)
          | _ => None
          end
      end
  end.

End Overlay.

(** ** The component [Button] *)

Module Widget.
Local Open Scope R_scope.

(** The two state cells of [Button]. *)
Record button : Type := {
  hover : bool;
  color : string
}.

Definition initial : button := {| hover := false; color := "blue" |}.

Definition onHover (b : button) : button := {| hover := true; color := color b |}.
Definition onBlur (b : button) : button := {| hover := false; color := color b |}.

(** The [scale] passed to [Box]. *)
Definition scale (b : button) : vec3 :=
  if hover b then (0.6, 0.6, 0.6) else (0.5, 0.5, 0.5).

Definition hexChar (d : N) : ascii :=
  if (d <? 10)%N then ascii_of_N (48 + d) else ascii_of_N (87 + d).

(** [n.toString(16)] for a non-negative integer: its hexadecimal digits, the
    most significant first, in lower case and without leading zeros. *)
Fixpoint toHex (fuel : nat) (n : N) (acc : string) : string :=
  match fuel with
  | O => acc
  | S fuel' =>
      let acc' := String (hexChar (n mod 16)) acc in
      if (n / 16 =? 0)%N then acc' else toHex fuel' (n / 16) acc'
  end.

Definition toString16 (n : N) : string :=
  toHex (S (N.to_nat (N.log2 n))) n "".

(** [onSelect], [random] being the value [Math.random()] returns:
    [`#${Math.floor(random * 16777215).toString(16)}`].  [Math.floor] is
    discontinuous, so the rounding of the product matters here: [fl] is the
    rounding of binary64 multiplication, and the integer is the integer
    part of the rounded product. *)
Definition onSelect (fl : number -> number) (random : number) (b : button)
  : button :=
  {| hover := hover b;
     color :=
       String "#"
         (toString16 (Z.to_N (Int_part (fl (random * 16777215))))) |}.

(** What is used of the rounding: on the range of the product, the rounded
    value is at least as close to the exact one as the representable
    number [y] is. *)
Definition nearest (fl : number -> number) (y : number) : Prop :=
  forall x : number, 0 <= x <= 16777215 -> Rabs (fl x - x) <= Rabs (y - x).

(** Rounding to the nearest multiple of [2^-29], the spacing of binary64
    numbers between [2^23] and [2^24]. *)
Definition gridRound (x : number) : number :=
  IZR (Int_part (x * 536870912 + / 2)) / 536870912.

End Widget.

(** ** The backend routes [GET] and [POST /api/arpoints] (server.js) *)

Module Api.

(** The fields the POST handler takes from [req.body]; each may be missing.
    A field that is present has the type of the schema (what Mongoose does
    with a value it must cast or reject is not modelled). *)
Record body : Type := {
  name : option string;
  modelUrl : option string;
  latitude : option number;
  longitude : option number;
  modelType : option string
}.

(** [new ARPoint({ name, modelUrl, latitude, longitude, modelType })]:
    the schema defaults fill [modelType] (['box']) and [createdAt]
    ([Date.now], here [now]). *)
Definition newARPoint (b : body) (now : Z) : Backend.ARPoint :=
  {| Backend.name := name b;
     Backend.modelUrl := modelUrl b;
     Backend.modelType := match modelType b with
                          | Some t => t
                          | None => "box"
                          end;
     Backend.latitude := latitude b;
     Backend.longitude := longitude b;
     Backend.createdAt := now |}.

(** The handler of [app.post('/api/arpoints', ...)]: [save()] stores the
    document under the [_id] the driver generated for it; the answer is
    status 201 with the document. *)
Definition postARPoint (b : body) (generated : Backend.ObjectId) (now : Z)
  (db : gmap N Backend.ARPoint)
  : (nat * (Backend.ObjectId * Backend.ARPoint)) * gmap N Backend.ARPoint :=
  let newPoint := newARPoint b now in
  ((201, (generated, newPoint)), <[generated := newPoint]> db).

(** [.sort({ createdAt: -1 })]: newest first. *)
Fixpoint insertNewestFirst (d : Backend.ObjectId * Backend.ARPoint)
  (l : list (Backend.ObjectId * Backend.ARPoint))
  : list (Backend.ObjectId * Backend.ARPoint) :=
  match l with
  | [] => [d]
  | d' :: rest =>
      if (Backend.createdAt (snd d') <=? Backend.createdAt (snd d))%Z
      then d :: l
      else d' :: insertNewestFirst d rest
  end.

Definition sortNewestFirst (l : list (Backend.ObjectId * Backend.ARPoint))
  : list (Backend.ObjectId * Backend.ARPoint) :=
  fold_right insertNewestFirst [] l.

(** The handler of [app.get('/api/arpoints', ...)]:
    [ARPoint.find().sort({ createdAt: -1 })], sent with status 200. *)
Definition getARPoints (db : gmap N Backend.ARPoint)
  : nat * list (Backend.ObjectId * Backend.ARPoint) :=
  (200, sortNewestFirst (map_to_list db)).

End Api.

(** ** Reading positions off a rendered scene *)

Module Layout.
Local Open Scope R_scope.

Definition minus (p u : vec3) : vec3 :=
  (vx p - vx u, vy p - vy u, vz p - vz u).

(** The positions of the elements rendered for the objects, in order;
    empty while the placeholder is shown. *)
Definition placed (rendered : option App.scene) : list vec3 :=
  match rendered with
  | Some sc => map App.position (App.children sc)
  | None => []
  end.

(** Every position taken relative to the first one. *)
Definition relativeToFirst (ps : list vec3) : list vec3 :=
  match ps with
  | [] => []
  | u :: _ => map (fun p => minus p u) ps
  end.

End Layout.

(** * Properties *)

(** ** Real-number facts used below *)

Section RealFacts.
Local Open Scope R_scope.

(** Two terms of the series for [2 * atan (1/3) + atan (1/7)] bound [PI]
    from below, three from above. *)
Lemma PI_above_313 : 3.13 < PI.
Proof.
  destruct (PI_2_3_7_ineq 0) as [low _].
  unfold PI_2_3_7_tg, tg_alt, Ratan_seq in low; simpl in low.
  lra.
Qed.

Lemma PI_below_315 : PI < 3.15.
Proof.
  destruct (PI_2_3_7_ineq 1) as [_ high].
  unfold PI_2_3_7_tg, tg_alt, Ratan_seq in high; simpl in high.
  lra.
Qed.

Lemma sin_abs_le (u : R) : Rabs (sin u) <= Rabs u.
Proof.
  pose proof (SIN_bound u) as bound.
  pose proof PI2_1 as half_pi.
  destruct (Rtotal_order u 0) as [neg | [-> | pos]].
  - rewrite (Rabs_left u) by lra. apply Rabs_le.
    destruct (Rle_dec u (-1)); [lra |].
    pose proof (sin_lt_x (- u)) as below.
    pose proof (sin_gt_0 (- u)) as above.
    rewrite sin_neg in below, above. lra.
  - rewrite sin_0, Rabs_R0. lra.
  - rewrite (Rabs_right u) by lra. apply Rabs_le.
    destruct (Rle_dec 1 u); [lra |].
    pose proof (sin_lt_x u pos). pose proof (sin_gt_0 u pos). lra.
Qed.

(** The cosine is 1-Lipschitz. *)
Lemma cos_lipschitz (p q : R) : Rabs (cos p - cos q) <= Rabs (p - q).
Proof.
  rewrite form2, !Rabs_mult.
  replace (Rabs (-2)) with 2 by (rewrite Rabs_left; lra).
  assert (half : Rabs ((p - q) / 2) = Rabs (p - q) / 2).
  { unfold Rdiv. rewrite Rabs_mult, (Rabs_right (/ 2)); lra. }
  pose proof (sin_abs_le ((p - q) / 2)) as small. rewrite half in small.
  pose proof (SIN_bound ((p + q) / 2)) as bound.
  assert (Rabs (sin ((p + q) / 2)) <= 1) by (apply Rabs_le; lra).
  pose proof (Rabs_pos (sin ((p - q) / 2))).
  pose proof (Rabs_pos (sin ((p + q) / 2))).
  nra.
Qed.

End RealFacts.

(** ** Geodetic projector *)

Section Projector.
Local Open Scope R_scope.
Import Geo.

Lemma latLonToOffset_x (lat0 lon0 lat lon : number) :
  vx (latLonToOffset lat0 lon0 lat lon)
  = degToRad (lon - lon0) * earthRadius * cos (degToRad lat0).
Proof.
  unfold latLonToOffset, vx, degToRad; simpl.
  replace (lat0 * PI / 180) with (lat0 * (PI / 180)) by (unfold Rdiv; ring).
  reflexivity.
Qed.

Lemma latLonToOffset_y (lat0 lon0 lat lon : number) :
  vy (latLonToOffset lat0 lon0 lat lon) = 0.
Proof. reflexivity. Qed.

Lemma latLonToOffset_z (lat0 lon0 lat lon : number) :
  vz (latLonToOffset lat0 lon0 lat lon)
  = - (degToRad (lat - lat0) * earthRadius).
Proof. reflexivity. Qed.

(** C6. For every coordinate [(lat, lon)], projecting the coordinate from
    itself gives the zero offset [(0, 0, 0)]. *)
Theorem latLonToOffset_same_point (lat lon : number) :
  latLonToOffset lat lon lat lon = (0, 0, 0).
Proof.
  unfold latLonToOffset; cbv zeta.
  repeat f_equal; ring.
Qed.

(** Swapping origin and target between two latitudes of the northern
    hemisphere at different longitudes never negates [x] exactly. *)
Lemma latLonToOffset_x_not_exact (lat_o lon_o lat_t lon_t : number) :
  0 <= lat_o -> lat_o < lat_t -> lat_t <= 90 -> lon_o <> lon_t ->
  vx (latLonToOffset lat_o lon_o lat_t lon_t)
  <> - vx (latLonToOffset lat_t lon_t lat_o lon_o).
Proof.
  intros lo lt hi dlon.
  rewrite !latLonToOffset_x.
  pose proof PI_RGT_0 as pi_pos.
  assert (strict : cos (degToRad lat_t) < cos (degToRad lat_o)).
  { clear dlon. apply cos_decreasing_1; unfold degToRad; nra. }
  set (co := cos (degToRad lat_o)) in *.
  set (ct := cos (degToRad lat_t)) in *.
  intro same.
  assert (zero : PI / 180 * earthRadius * ((lon_t - lon_o) * (co - ct)) = 0).
  { apply Rminus_diag_eq in same.
    rewrite <- same. unfold degToRad. ring. }
  assert (scale : PI / 180 * earthRadius <> 0) by (unfold earthRadius; lra).
  apply Rmult_integral in zero. destruct zero as [zero | zero]; [lra |].
  apply Rmult_integral in zero. lra.
Qed.

(** C7. Swapping origin and target negates the offset to first order:
    [z] is negated exactly, and [x] is negated up to a term of second
    order, at most [earthRadius] times the product of the two angular
    differences (in radians).  The negation of [x] is not exact, because
    the cosine is taken at the latitude of the origin: it already fails
    between [(0, 0)] and [(0.00005, 0.00005)]. *)
Theorem latLonToOffset_swap :
  (forall lat_o lon_o lat_t lon_t : number,
      let there := latLonToOffset lat_o lon_o lat_t lon_t in
      let back := latLonToOffset lat_t lon_t lat_o lon_o in
      vz there = - vz back /\
      Rabs (vx there - - vx back)
      <= earthRadius * Rabs (degToRad (lat_t - lat_o))
                     * Rabs (degToRad (lon_t - lon_o))) /\
  vx (latLonToOffset 0 0 0.00005 0.00005)
  <> - vx (latLonToOffset 0.00005 0.00005 0 0).
Proof.
  split.
  - intros lat_o lon_o lat_t lon_t there back; subst there back.
    split.
    + rewrite !latLonToOffset_z. unfold degToRad. ring.
    + rewrite !latLonToOffset_x.
      replace (degToRad (lon_t - lon_o) * earthRadius * cos (degToRad lat_o)
               - - (degToRad (lon_o - lon_t) * earthRadius * cos (degToRad lat_t)))
        with (earthRadius * (cos (degToRad lat_o) - cos (degToRad lat_t))
              * degToRad (lon_t - lon_o))
        by (unfold degToRad; ring).
      rewrite !Rabs_mult.
      rewrite (Rabs_right earthRadius) by (unfold earthRadius; lra).
      pose proof (cos_lipschitz (degToRad lat_o) (degToRad lat_t)) as lip.
      replace (degToRad lat_o - degToRad lat_t)
        with (- degToRad (lat_t - lat_o)) in lip by (unfold degToRad; ring).
      rewrite Rabs_Ropp in lip.
      apply Rmult_le_compat_r; [apply Rabs_pos |].
      apply Rmult_le_compat_l; [unfold earthRadius; lra | exact lip].
  - apply latLonToOffset_x_not_exact; lra.
Qed.

End Projector.

(** ** Orientation calibrator *)

Section CalibratorFacts.
Local Open Scope R_scope.
Import Calibrator.

Lemma mount_window :
  window mount = [ (deviceorientationabsolute, firstClosure);
                   (deviceorientation, firstClosure) ].
Proof. reflexivity. Qed.

Lemma truthy_nonzero (h : number) : h <> 0 -> truthy (Some h) = true.
Proof. intro nz. unfold truthy. destruct (Req_dec_T h 0); [contradiction | reflexivity]. Qed.

Lemma truthy_zero : truthy (Some 0) = false.
Proof. unfold truthy. destruct (Req_dec_T 0 0); [reflexivity | lra]. Qed.

Lemma truthy_Some (v : option number) :
  truthy v = true -> exists h, v = Some h /\ h <> 0.
Proof.
  destruct v as [h |]; simpl; [| discriminate].
  destruct (Req_dec_T h 0); [discriminate |]. eauto.
Qed.

(** The compass angle is the reported heading when there is a non-zero one,
    and [360 - alpha] otherwise. *)
Lemma compassOf_cases (e : sample) (c : number) :
  compassOf e = Some c ->
  (webkitCompassHeading e = Some c /\ c <> 0) \/
  (truthy (webkitCompassHeading e) = false /\
   exists a, alpha e = Some a /\ c = 360 - a).
Proof.
  unfold compassOf. destruct (truthy (webkitCompassHeading e)) eqn:reported.
  - intro same. apply truthy_Some in reported as (h & is_h & nz).
    left. rewrite is_h in same. injection same as <-. auto.
  - destruct (alpha e) as [a |]; [| discriminate].
    intro same; injection same as <-. right. eauto.
Qed.

Lemma compassOf_neither (e : sample) :
  webkitCompassHeading e = None -> alpha e = None -> compassOf e = None.
Proof. unfold compassOf. intros -> ->. reflexivity. Qed.

Lemma dispatch_mount (ty : eventType) (e : sample) :
  dispatch ty e mount
  = match compassOf e with Some c => pendingOf c | None => mount end.
Proof.
  unfold dispatch. rewrite mount_window.
  destruct ty; simpl; unfold handleOrientation;
    destruct (compassOf e); reflexivity.
Qed.

Lemma dispatch_pending (ty : eventType) (e : sample) (v : number) :
  dispatch ty e (pendingOf v) = pendingOf v.
Proof. reflexivity. Qed.

Lemma dispatch_calibrated (ty : eventType) (e : sample) (v : number) :
  dispatch ty e (calibratedOf v) = calibratedOf v.
Proof.
  unfold dispatch.
  destruct ty; simpl; unfold handleOrientation;
    destruct (compassOf e); reflexivity.
Qed.

Lemma rerender_pending (v : number) : rerender (pendingOf v) = calibratedOf v.
Proof. reflexivity. Qed.

(** After the render that follows calibration the effect has registered a
    new closure for both event types; it captured the calibrated value, so
    its guard [initialHeading === null] is false for good. *)
Lemma rerender_registers_again (v : number) :
  window (rerender (pendingOf v))
  = [ (deviceorientationabsolute, secondClosure v);
      (deviceorientation, secondClosure v) ]
  /\ captured (secondClosure v) = Some v.
Proof. split; reflexivity. Qed.

Lemma step_phase (hk : hook) (a : action) : phase hk -> phase (step hk a).
Proof.
  intros [| v | v]; destruct a as [ty e |]; simpl.
  - rewrite dispatch_mount. destruct (compassOf e); constructor.
  - constructor.
  - rewrite dispatch_pending. constructor.
  - rewrite rerender_pending. constructor.
  - rewrite dispatch_calibrated. constructor.
  - constructor.
Qed.

Lemma run_phase (tr : list action) (hk : hook) : phase hk -> phase (run tr hk).
Proof.
  revert hk. induction tr as [| a tr IH]; intros hk reach; simpl.
  - exact reach.
  - apply IH, step_phase, reach.
Qed.

(** Once a value is queued or rendered, no action changes what the hook
    returns. *)
Lemma run_calibrated (tr : list action) (v : number) :
  useDeviceHeading (run tr (calibratedOf v)) = Some v.
Proof.
  induction tr as [| a tr IH]; [reflexivity |].
  destruct a as [ty e |]; simpl.
  - rewrite dispatch_calibrated. exact IH.
  - exact IH.
Qed.

Lemma run_pending (tr : list action) (v : number) :
  useDeviceHeading (run tr (pendingOf v)) = Some v.
Proof.
  induction tr as [| a tr IH]; [reflexivity |].
  destruct a as [ty e |]; simpl.
  - rewrite dispatch_pending. exact IH.
  - rewrite rerender_pending. apply run_calibrated.
Qed.

(** The hook returns the compass value of the first usable sample. *)
Lemma run_mount (tr : list action) :
  useDeviceHeading (run tr mount) = firstCompass tr.
Proof.
  induction tr as [| a tr IH]; [reflexivity |].
  destruct a as [ty e |]; simpl.
  - rewrite dispatch_mount. destruct (compassOf e) as [c |].
    + apply run_pending.
    + exact IH.
  - exact IH.
Qed.

Lemma run_unusable (tr : list action) :
  firstCompass tr = None -> run tr mount = mount.
Proof.
  induction tr as [| a tr IH]; [reflexivity |].
  destruct a as [ty e |]; simpl.
  - rewrite dispatch_mount. destruct (compassOf e); [discriminate | exact IH].
  - exact IH.
Qed.

Lemma run_app (tr later : list action) (hk : hook) :
  run (tr ++ later) hk = run later (run tr hk).
Proof. apply fold_left_app. Qed.

(** A sample without a compass angle changes nothing, whatever the state. *)
Lemma dispatch_unusable (ty : eventType) (e : sample) (hk : hook) :
  compassOf e = None -> dispatch ty e hk = hk.
Proof.
  intro unusable. unfold dispatch.
  generalize (window hk) as called. intro called. revert hk.
  induction called as [| entry called IH]; intro hk; simpl; [reflexivity |].
  unfold handleOrientation at 2. rewrite unusable.
  destruct (_ && _); apply IH.
Qed.

End CalibratorFacts.

Section CalibratorClaims.
Local Open Scope R_scope.
Import Calibrator.

(** What holds of the one-shot behaviour.  Let [e] be the first sample for
    which the handler computes a compass angle [c] (a non-zero reported
    heading, or [360 - alpha] when the reported heading is missing or
    zero).  Before [e] the hook returns [null]; [e] makes it return [c];
    right after the handler has run no listener is left on [window]; and
    whatever is fired or rendered later, the hook still returns [c]. *)
Lemma calibrator_one_shot
  (before later : list action) (ty : eventType) (e : sample) (c : number) :
  firstCompass before = None ->
  compassOf e = Some c ->
  let hk := run (before ++ [Fire ty e]) mount in
  useDeviceHeading (run before mount) = None /\
  ((webkitCompassHeading e = Some c /\ c <> 0) \/
   (truthy (webkitCompassHeading e) = false /\
    exists a, alpha e = Some a /\ c = 360 - a)) /\
  useDeviceHeading hk = Some c /\
  window hk = [] /\
  useDeviceHeading (run later hk) = Some c.
Proof.
  intros quiet usable hk.
  assert (shape : hk = pendingOf c).
  { unfold hk. rewrite run_app, (run_unusable before quiet). simpl.
    rewrite dispatch_mount, usable. reflexivity. }
  rewrite shape. repeat split.
  - rewrite run_mount. exact quiet.
  - apply compassOf_cases, usable.
  - apply run_pending.
Qed.

Lemma calibrator_one_shot_witness :
  let first := {| webkitCompassHeading := None; alpha := Some 350 |} in
  let second := {| webkitCompassHeading := None; alpha := Some 10 |} in
  firstCompass [] = None /\
  compassOf first = Some (360 - 350) /\
  360 - 350 = 10 /\
  useDeviceHeading
    (run [Fire deviceorientation first; Render;
          Fire deviceorientationabsolute second] mount)
  = Some (360 - 350).
Proof.
  intros first second.
  split; [reflexivity |]. split; [reflexivity |]. split; [lra |].
  exact (proj2 (proj2 (proj2 (proj2
    (calibrator_one_shot [] [Render; Fire deviceorientationabsolute second]
       deviceorientation first (360 - 350) eq_refl eq_refl))))).
Defined.

(** Once the calibrated value is rendered, nothing changes the hook state
    any more: the value stays, and so do the two listeners the effect
    registered again. *)
Lemma run_from_calibrated (later : list action) (v : number) :
  run later (calibratedOf v) = calibratedOf v.
Proof.
  induction later as [| a later IH]; [reflexivity |].
  destruct a as [ty e |]; simpl.
  - rewrite dispatch_calibrated. exact IH.
  - exact IH.
Qed.

(** C2. The value is set once and for good, but the calibrator does not
    stay unsubscribed, and a reported heading of [0] is not taken.  With a
    first sample [{alpha: a}]: the hook returns [360 - a], the handler has
    emptied [window], and after the render that follows, the effect has
    registered a handler for [deviceorientationabsolute] and for
    [deviceorientation] again; both stay registered whatever happens
    later, while the value stays [360 - a].  With a first sample
    [{webkitCompassHeading: 0, alpha: 30}] the hook returns [330], not [0],
    and with [{webkitCompassHeading: 0, alpha: null}] it stays
    uncalibrated. *)
Theorem calibrator_listens_again :
  (forall (ty : eventType) (a : number) (later : list action),
      let hk := run [Fire ty {| webkitCompassHeading := None;
                                alpha := Some a |}] mount in
      useDeviceHeading hk = Some (360 - a) /\
      window hk = [] /\
      window (run (Render :: later) hk)
      = [ (deviceorientationabsolute, secondClosure (360 - a));
          (deviceorientation, secondClosure (360 - a)) ] /\
      useDeviceHeading (run (Render :: later) hk) = Some (360 - a)) /\
  useDeviceHeading
    (run [Fire deviceorientation
            {| webkitCompassHeading := Some 0; alpha := Some 30 |}] mount)
  = Some (360 - 30) /\
  Some (360 - 30) <> Some 0 /\
  useDeviceHeading
    (run [Fire deviceorientation
            {| webkitCompassHeading := Some 0; alpha := None |}] mount)
  = None.
Proof.
  split.
  - intros ty a later hk.
    assert (shape : hk = pendingOf (360 - a)).
    { unfold hk. simpl. rewrite dispatch_mount. reflexivity. }
    rewrite shape. simpl run. rewrite rerender_pending, run_from_calibrated.
    repeat split.
  - simpl run. rewrite !dispatch_mount.
    unfold compassOf; simpl webkitCompassHeading. rewrite truthy_zero. simpl.
    repeat split. intro same. injection same as same. lra.
Qed.

(** A reported compass heading other than zero is used as it is. *)
Lemma compass_heading_nonzero_used
  (ty : eventType) (h : number) (al : option number) :
  h <> 0 ->
  useDeviceHeading
    (dispatch ty {| webkitCompassHeading := Some h; alpha := al |} mount)
  = Some h.
Proof.
  intro nz. rewrite dispatch_mount. unfold compassOf; simpl webkitCompassHeading.
  rewrite (truthy_nonzero h nz). reflexivity.
Qed.

(** C3. A reported compass heading of [42] calibrates to [42], but a
    reported compass heading of [0] is not used: [0] is falsy, so with
    [alpha = 30] the hook calibrates to [360 - 30], and with [alpha = null]
    it stays uncalibrated. *)
Theorem compass_heading_zero_skipped :
  useDeviceHeading
    (dispatch deviceorientation
       {| webkitCompassHeading := Some 42; alpha := None |} mount)
  = Some 42 /\
  useDeviceHeading
    (dispatch deviceorientation
       {| webkitCompassHeading := Some 0; alpha := Some 30 |} mount)
  = Some (360 - 30) /\
  Some (360 - 30) <> Some 0 /\
  useDeviceHeading
    (dispatch deviceorientation
       {| webkitCompassHeading := Some 0; alpha := None |} mount)
  = None.
Proof.
  split; [apply compass_heading_nonzero_used; lra |].
  rewrite !dispatch_mount. unfold compassOf; simpl webkitCompassHeading.
  rewrite truthy_zero. simpl.
  repeat split. intro same. injection same as same. lra.
Qed.

(** C5. A sample with neither [webkitCompassHeading] nor [alpha], arriving
    before calibration, leaves the whole hook state as it was: the hook
    still returns [null], the first closure is still registered for both
    event types, and the next usable sample calibrates.  (The handler has
    no failing path: it only reads two properties of the event.) *)
Theorem unusable_sample_ignored
  (before : list action) (ty : eventType) (e : sample) :
  firstCompass before = None ->
  webkitCompassHeading e = None ->
  alpha e = None ->
  let hk := run before mount in
  step hk (Fire ty e) = hk /\
  useDeviceHeading (step hk (Fire ty e)) = None /\
  window (step hk (Fire ty e))
  = [ (deviceorientationabsolute, firstClosure);
      (deviceorientation, firstClosure) ] /\
  forall (ty' : eventType) (e' : sample) (c : number),
    compassOf e' = Some c ->
    useDeviceHeading (step (step hk (Fire ty e)) (Fire ty' e')) = Some c.
Proof.
  intros quiet no_heading no_alpha hk.
  assert (same : step hk (Fire ty e) = hk).
  { simpl. apply dispatch_unusable, compassOf_neither; assumption. }
  rewrite same. unfold hk. rewrite (run_unusable before quiet).
  repeat split.
  intros ty' e' c usable. simpl. rewrite dispatch_mount, usable. reflexivity.
Qed.

Lemma unusable_sample_ignored_witness :
  let e := {| webkitCompassHeading := None; alpha := None |} in
  firstCompass [] = None /\
  webkitCompassHeading e = None /\
  alpha e = None /\
  step mount (Fire deviceorientation e) = mount.
Proof.
  intro e.
  repeat (split; [reflexivity |]).
  exact (proj1 (unusable_sample_ignored [] deviceorientation e
                  eq_refl eq_refl eq_refl)).
Defined.

End CalibratorClaims.

(** ** The component [App] *)

Section AppFacts.
Local Open Scope R_scope.
Import App.

Lemma headingEffect_keeps (st : state) :
  origin (headingEffect st) = origin st /\
  objects (headingEffect st) = objects st /\
  hookState (headingEffect st) = hookState st.
Proof. unfold headingEffect. destruct (_ && _); repeat split. Qed.

Lemma heading_settle (st : state) :
  heading (settle st) = Calibrator.useDeviceHeading (hookState st).
Proof.
  unfold heading, settle.
  destruct (headingEffect_keeps
              (withHook st (Calibrator.rerender (hookState st))))
    as (_ & _ & ->).
  reflexivity.
Qed.

Lemma origin_settle (st : state) : origin (settle st) = origin st.
Proof.
  unfold settle.
  destruct (headingEffect_keeps
              (withHook st (Calibrator.rerender (hookState st))))
    as (-> & _ & _).
  reflexivity.
Qed.

Lemma mount_coherent : coherent mount.
Proof. split; [constructor | left; reflexivity]. Qed.

Lemma headingEffect_coherent (st : state) :
  coherent st -> coherent (headingEffect st).
Proof.
  intro ok. unfold headingEffect.
  destruct (truthy (heading st)) eqn:usable; simpl; [| exact ok].
  destruct (initialHeading st) eqn:own; simpl; [exact ok |].
  split; [apply ok |]. right. split; [reflexivity | exact usable].
Qed.

Lemma step_coherent (st : state) (a : action) :
  coherent st -> coherent (step st a).
Proof.
  intros [reach copy].
  destruct a as [ty e | | | latitude longitude |]; simpl.
  - split; [apply (step_phase _ (Calibrator.Fire ty e)), reach |].
    unfold heading in *; simpl.
    destruct reach as [| v | v].
    + rewrite dispatch_mount. destruct (Calibrator.compassOf e); exact copy.
    + exact copy.
    + rewrite dispatch_calibrated. exact copy.
  - split; [apply (step_phase _ Calibrator.Render), reach |].
    unfold heading in *; simpl.
    destruct reach as [| v | v]; try exact copy.
    destruct copy as [none | [_ usable]]; [left; exact none | discriminate].
  - apply headingEffect_coherent. split; assumption.
  - split; assumption.
  - split; assumption.
Qed.

Lemma run_coherent (tr : list action) (st : state) :
  coherent st -> coherent (run tr st).
Proof.
  revert st. induction tr as [| a tr IH]; intros st ok; simpl.
  - exact ok.
  - apply IH, step_coherent, ok.
Qed.

Lemma orZero_falsy (v : option number) : truthy v = false -> orZero v = 0.
Proof. destruct v as [x |]; simpl; [| reflexivity]. intros ->. reflexivity. Qed.

Lemma headingEffect_copy (st : state) :
  coherent st ->
  orZero (initialHeading (headingEffect st)) = orZero (heading st).
Proof.
  intros [_ copy]. unfold headingEffect.
  destruct (truthy (heading st)) eqn:usable; simpl.
  - destruct (initialHeading st) eqn:own; simpl; [| reflexivity].
    rewrite own.
    destruct copy as [contra | [same _]]; [discriminate | rewrite same; reflexivity].
  - destruct copy as [none | [_ contra]]; [| discriminate].
    rewrite none. symmetry. apply orZero_falsy, usable.
Qed.

(** In a settled state the heading of [App] and the heading of the hook
    agree up to [|| 0]. *)
Lemma settle_copy (st : state) :
  coherent st ->
  orZero (initialHeading (settle st)) = orZero (heading (settle st)).
Proof.
  intro ok.
  apply (step_coherent st RenderHook) in ok. simpl in ok.
  unfold settle.
  rewrite (headingEffect_copy _ ok).
  unfold heading.
  destruct (headingEffect_keeps
              (withHook st (Calibrator.rerender (hookState st))))
    as (_ & _ & ->).
  reflexivity.
Qed.

Lemma orZero_negated (v : option number) :
  - orZero v = match v with None => 0 | Some h => - h end.
Proof.
  destruct v as [h |]; simpl; [| lra].
  destruct (Req_dec_T h 0); lra.
Qed.

Lemma radToDeg_degToRad (x : number) : Geo.radToDeg (Geo.degToRad x) = x.
Proof. unfold Geo.radToDeg, Geo.degToRad. pose proof PI_RGT_0. field. lra. Qed.

Lemma renderObject_rotation (i : nat) (obj : object) :
  rotation (renderObject i obj) = None.
Proof. unfold renderObject. destruct (_ =? _)%string; [| destruct (_ =? _)%string]; reflexivity. Qed.

Lemma renderObject_position (i : nat) (obj : object) :
  position (renderObject i obj)
  = Geo.latLonToOffset (fst WORLD_ORIGIN) (snd WORLD_ORIGIN) (lat obj) (lon obj).
Proof. unfold renderObject. destruct (_ =? _)%string; [| destruct (_ =? _)%string]; reflexivity. Qed.

Lemma mapIndexed_map {A B C : Type} (f : nat -> A -> B) (g : B -> C)
  (h : A -> C) (l : list A) :
  (forall i a, g (f i a) = h a) ->
  forall i, map g (mapIndexed f i l) = map h l.
Proof.
  intro agree. induction l as [| a l IH]; intro i; simpl; [reflexivity |].
  rewrite agree, IH. reflexivity.
Qed.

Lemma mapIndexed_Forall {A B : Type} (f : nat -> A -> B) (P : B -> Prop)
  (l : list A) :
  (forall i a, P (f i a)) -> forall i, Forall P (mapIndexed f i l).
Proof.
  intro all. induction l as [| a l IH]; intro i; simpl; constructor; auto.
Qed.

End AppFacts.

Section AppClaims.
Local Open Scope R_scope.
Import App.

(** Whatever the objects, the positions rendered by [App] are their
    projections from [WORLD_ORIGIN]. *)
Lemma render_positions (st : state) (sc : scene) :
  render st = Some sc ->
  map position (children sc)
  = map (fun obj =>
           Geo.latLonToOffset 12.7489708 80.1988392 (lat obj) (lon obj))
        (objects st).
Proof.
  unfold render. destruct (origin st); [| discriminate].
  intro same; injection same as <-. simpl.
  apply mapIndexed_map. intros i obj. apply renderObject_position.
Qed.

(** The earlier variant projects from the [origin] state instead. *)
Lemma legacy_render_positions (st : state) (sc : scene) (o : number * number) :
  origin st = Some o ->
  Legacy.render st = Some sc ->
  map position (children sc)
  = map (fun obj => Geo.latLonToOffset (fst o) (snd o) (lat obj) (lon obj))
        (objects st).
Proof.
  unfold Legacy.render. intros ->.
  intro same; injection same as <-. simpl.
  apply mapIndexed_map. intros i obj. unfold Legacy.renderObject.
  destruct (_ =? _)%string; reflexivity.
Qed.

(** C1, as stated, fails for the fix [(10, 20)]: the position rendered for
    the user marker, which sits on the fix, is not its projection from the
    fix (that would be the zero offset). *)
Lemma offsets_from_first_fix_counterexample :
  let st := onPosition 10 20 mount in
  exists sc : scene,
    render st = Some sc /\
    map position (children sc)
    <> map (fun obj => Geo.latLonToOffset 10 20 (lat obj) (lon obj))
           (objects st).
Proof.
  intro st. eexists. split; [reflexivity |].
  intro same.
  apply (f_equal (fun l => option_map vz (hd_error l))) in same.
  simpl in same. injection same as north.
  pose proof PI_RGT_0. unfold Geo.earthRadius in north. lra.
Qed.

(** C1, amended.  An accepted fix makes [objects] non-empty and sets the
    [origin] state to the coordinate of the fix; the position rendered for
    every object is its projection from the constant [WORLD_ORIGIN],
    [(12.7489708, 80.1988392)], not from the fix. *)
Theorem offsets_from_world_origin (latitude longitude : number) (st : state) :
  let st' := onPosition latitude longitude st in
  objects st' <> [] /\
  origin st' = Some (latitude, longitude) /\
  exists sc : scene,
    render st' = Some sc /\
    map position (children sc)
    = map (fun obj =>
             Geo.latLonToOffset (fst WORLD_ORIGIN) (snd WORLD_ORIGIN)
               (lat obj) (lon obj))
          (objects st').
Proof.
  intro st'. split; [discriminate |]. split; [reflexivity |].
  eexists. split; [reflexivity |].
  apply (render_positions st'). reflexivity.
Qed.

(** C4. In every settled state of a mounted [App] that renders a scene,
    the yaw of the scene root is the negated heading returned by the hook,
    and zero while the hook returns [null]: the root rotation is
    [(0, degToRad yaw, 0)], and no element rendered for an object has a
    rotation of its own. *)
Theorem scene_yaw (tr : list action) (sc : scene) :
  render (settle (run tr mount)) = Some sc ->
  let yaw := match heading (settle (run tr mount)) with
             | None => 0
             | Some h => - h
             end in
  rootRotation sc = (0, Geo.degToRad yaw, 0) /\
  sceneYawDegrees sc = yaw /\
  Forall (fun el => rotation el = None) (children sc).
Proof.
  intros shown yaw.
  pose proof (settle_copy _ (run_coherent tr mount mount_coherent)) as copy.
  unfold render in shown.
  destruct (origin (settle (run tr mount))); [| discriminate].
  injection shown as <-.
  assert (turn : - Geo.degToRad (orZero (initialHeading (settle (run tr mount))))
                 = Geo.degToRad yaw).
  { rewrite copy. unfold yaw. rewrite <- orZero_negated.
    unfold Geo.degToRad. ring. }
  unfold sceneYawDegrees; simpl. rewrite turn.
  split; [reflexivity |]. split; [apply radToDeg_degToRad |].
  apply mapIndexed_Forall. intros i obj. apply renderObject_rotation.
Qed.

Lemma scene_yaw_witness :
  let east := {| Calibrator.webkitCompassHeading := Some 90;
                 Calibrator.alpha := None |} in
  let turned := [Position 10 20; Orientation Calibrator.deviceorientation east] in
  (exists sc : scene,
      render (settle (run turned mount)) = Some sc /\
      heading (settle (run turned mount)) = Some 90 /\
      sceneYawDegrees sc = - 90) /\
  (exists sc : scene,
      render (settle (run [Position 10 20] mount)) = Some sc /\
      heading (settle (run [Position 10 20] mount)) = None /\
      sceneYawDegrees sc = 0).
Proof.
  intros east turned. split.
  - assert (shown : exists sc, render (settle (run turned mount)) = Some sc).
    { unfold render. rewrite origin_settle. simpl. eauto. }
    assert (ninety : heading (settle (run turned mount)) = Some 90).
    { rewrite heading_settle.
      apply (compass_heading_nonzero_used Calibrator.deviceorientation 90 None).
      lra. }
    destruct shown as [sc shown]. exists sc. split; [exact shown |].
    destruct (scene_yaw turned sc shown) as (_ & yaw & _).
    rewrite yaw, ninety. split; reflexivity.
  - assert (shown : exists sc,
               render (settle (run [Position 10 20] mount)) = Some sc).
    { unfold render. rewrite origin_settle. simpl. eauto. }
    destruct shown as [sc shown]. exists sc. split; [exact shown |].
    destruct (scene_yaw _ sc shown) as (_ & yaw & _).
    rewrite yaw, heading_settle. split; reflexivity.
Defined.

(** C9. An accepted fix replaces [objects], whatever it held, by six
    objects: one ["user"] at the fix, four ["monk"] at the offsets
    [(0.00005, 0)], [(0.0001, 0.0001)], [(0.00001, 0.00001)] and
    [(0.00002, 0.00002)] in latitude and longitude, and one ["button"] at
    offset [(0, 0.00005)]; they are rendered as one mesh, four groups and
    one [Button]. *)
Theorem fix_creates_six_objects (latitude longitude : number) (st : state) :
  let created := objects (onPosition latitude longitude st) in
  let ofType := fun t => List.filter (fun obj => String.eqb (type obj) t) created in
  let offset := fun obj => (lat obj - latitude, lon obj - longitude) in
  List.length created = 6%nat /\
  ofType "user"%string
  = [ {| lat := latitude; lon := longitude; type := "user" |} ] /\
  map type created
  = [ "user"; "monk"; "monk"; "monk"; "monk"; "button" ]%string /\
  map offset (ofType "monk"%string)
  = [ (0.00005, 0); (0.0001, 0.0001); (0.00001, 0.00001); (0.00002, 0.00002) ] /\
  map offset (ofType "button"%string) = [ (0, 0.00005) ] /\
  map elementTag (mapIndexed renderObject 0 created)
  = [ mesh; group; group; group; group; Button ].
Proof.
  intros created ofType offset. unfold offset, ofType, created; simpl.
  repeat split.
  - repeat (f_equal; try lra).
  - repeat (f_equal; try lra).
Qed.

(** C8. Projected from [(0, 0)], the coordinate [(0.00005, 0)] has offset
    [x = 0], [y = 0] and [z] within [0.1] of [-5.55].  End to end, in the
    variant of [App] that projects from the fix: with the heading
    calibrated to [0] and the fix [(0, 0)], the first object is rendered at
    that offset under a root yaw of [0]. *)
Theorem north_entity_offset :
  let p := Geo.latLonToOffset 0 0 0.00005 0 in
  let north := {| Calibrator.webkitCompassHeading := None;
                  Calibrator.alpha := Some 360 |} in
  let calibrated :=
    settle (run [Orientation Calibrator.deviceorientation north] mount) in
  let st := Legacy.onPosition 0 0 calibrated in
  (vx p = 0 /\ vy p = 0 /\ Rabs (vz p - (- 5.55)) < 0.1) /\
  heading st = Some (360 - 360) /\
  exists sc : scene,
    Legacy.render st = Some sc /\
    map position (children sc)
    = [ p; Geo.latLonToOffset 0 0 0 0.00005 ] /\
    sceneYawDegrees sc = 0.
Proof.
  intros p north calibrated st.
  split; [| split].
  - unfold p, Geo.latLonToOffset, vx, vy, vz; simpl.
    split; [ring |]. split; [reflexivity |].
    pose proof PI_above_313. pose proof PI_below_315.
    unfold Geo.earthRadius. apply Rabs_def1; lra.
  - change (heading st) with (heading calibrated).
    unfold calibrated. rewrite heading_settle. reflexivity.
  - eexists. split; [reflexivity |]. split.
    + unfold st; simpl. repeat f_equal; lra.
    + unfold sceneYawDegrees; simpl.
      change (initialHeading st) with (initialHeading calibrated).
      unfold calibrated.
      rewrite (settle_copy _ (run_coherent _ mount mount_coherent)).
      rewrite heading_settle. simpl.
      pose proof PI_RGT_0.
      destruct (Req_dec_T (360 - 360) 0);
        unfold vy, Geo.radToDeg, Geo.degToRad; simpl; field; lra.
Qed.

End AppClaims.

(** ** The DELETE route *)

Section BackendClaims.
Import Backend.

(** An id that does not cast is answered with status 500, and nothing is
    deleted. *)
Lemma delete_malformed_id (id : string) (db : gmap N ARPoint) :
  castObjectId id = None ->
  status (fst (deleteARPoint id db)) = 500 /\ snd (deleteARPoint id db) = db.
Proof.
  intro malformed. unfold deleteARPoint, findByIdAndDelete.
  rewrite malformed. split; reflexivity.
Qed.

(** C10. For an id that casts to an [ObjectId], the route answers
    [{ message: 'Point deleted successfully' }] with status 200 whether or
    not a point with that id is stored: the response is the same for every
    content of the collection, and when no stored point has that id the
    collection is left as it was. *)
Theorem delete_missing_point_succeeds
  (id : string) (oid : ObjectId) (db : gmap N ARPoint) :
  castObjectId id = Some oid ->
  fst (deleteARPoint id db)
  = {| status := 200; message := "Point deleted successfully" |} /\
  (forall other : gmap N ARPoint,
      fst (deleteARPoint id other) = fst (deleteARPoint id db)) /\
  (db !! oid = None -> snd (deleteARPoint id db) = db).
Proof.
  intro well_formed. unfold deleteARPoint, findByIdAndDelete.
  rewrite well_formed. simpl. repeat split.
  intro missing. apply delete_id, missing.
Qed.

Lemma delete_missing_point_succeeds_witness :
  exists oid : ObjectId,
    castObjectId "507f1f77bcf86cd799439011" = Some oid /\
    (∅ : gmap N ARPoint) !! oid = None /\
    deleteARPoint "507f1f77bcf86cd799439011" ∅
    = ({| status := 200; message := "Point deleted successfully" |}, ∅).
Proof.
  eexists. split; [vm_compute; reflexivity |].
  split; [apply lookup_empty |].
  destruct (delete_missing_point_succeeds
              "507f1f77bcf86cd799439011" _ ∅ eq_refl) as (answer & _ & kept).
  rewrite (surjective_pairing (deleteARPoint _ _)).
  rewrite answer, (kept (lookup_empty _)). reflexivity.
Defined.

End BackendClaims.

(** * Further properties *)

(** ** Geodetic projector *)

Section ProjectorLaws.
Local Open Scope R_scope.
Import Geo.

Lemma metres_per_radian_pos : 0 < PI / 180 * earthRadius.
Proof. pose proof PI_RGT_0. unfold earthRadius. lra. Qed.

Lemma cos_latitude_pos (lat0 : number) :
  -90 < lat0 < 90 -> 0 < cos (degToRad lat0).
Proof.
  intros [south north]. pose proof PI_RGT_0.
  apply cos_gt_0; unfold degToRad; nra.
Qed.

Lemma scaled_sign (d k : R) :
  0 < k -> (0 < d * k <-> 0 < d) /\ (d * k = 0 <-> d = 0).
Proof.
  intro pos. repeat split; intro given; nra.
Qed.

(** X1. Away from the poles the axes point as the source comment says:
    [x] is positive exactly for targets east of the origin and zero exactly
    on the origin's meridian, [z] is negative exactly for targets north of
    the origin and zero exactly on its parallel, and [y] is always zero. *)
Theorem latLonToOffset_directions (lat0 lon0 lat lon : number) :
  -90 < lat0 < 90 ->
  let p := latLonToOffset lat0 lon0 lat lon in
  (0 < vx p <-> lon0 < lon) /\
  (vx p = 0 <-> lon = lon0) /\
  (vz p < 0 <-> lat0 < lat) /\
  (vz p = 0 <-> lat = lat0) /\
  vy p = 0.
Proof.
  intros inside p. unfold p.
  pose proof (cos_latitude_pos lat0 inside) as slope.
  pose proof metres_per_radian_pos as scale.
  rewrite latLonToOffset_x, latLonToOffset_z, latLonToOffset_y.
  replace (degToRad (lon - lon0) * earthRadius * cos (degToRad lat0))
    with ((lon - lon0) * (PI / 180 * earthRadius * cos (degToRad lat0)))
    by (unfold degToRad; ring).
  replace (degToRad (lat - lat0) * earthRadius)
    with ((lat - lat0) * (PI / 180 * earthRadius))
    by (unfold degToRad; ring).
  assert (east : 0 < PI / 180 * earthRadius * cos (degToRad lat0))
    by (apply Rmult_lt_0_compat; assumption).
  destruct (scaled_sign (lon - lon0) _ east) as [xpos xzero].
  destruct (scaled_sign (lat - lat0) _ scale) as [zpos zzero].
  assert (flip : forall u : R, - u < 0 <-> 0 < u) by (intro u; lra).
  assert (flip0 : forall u : R, - u = 0 <-> u = 0) by (intro u; lra).
  rewrite flip, flip0, xpos, xzero, zpos, zzero.
  repeat split; lra.
Qed.

Lemma latLonToOffset_directions_witness :
  -90 < 12.7489708 < 90 /\
  vz (latLonToOffset 12.7489708 80.1988392 12.75 80.1988392) < 0.
Proof.
  split; [lra |].
  apply (latLonToOffset_directions 12.7489708 80.1988392 12.75 80.1988392);
    lra.
Defined.

(** X2. One degree of latitude is between 110784 and 111493 metres of [z],
    and one degree of longitude is at most 111493 metres of [x]. *)
Theorem latLonToOffset_scale (lat0 lon0 lat lon : number) :
  let p := latLonToOffset lat0 lon0 lat lon in
  110784 * Rabs (lat - lat0) <= Rabs (vz p) <= 111493 * Rabs (lat - lat0) /\
  Rabs (vx p) <= 111493 * Rabs (lon - lon0).
Proof.
  intro p. unfold p.
  rewrite latLonToOffset_x, latLonToOffset_z.
  pose proof PI_above_313 as low. pose proof PI_below_315 as high.
  rewrite Rabs_Ropp.
  unfold degToRad. rewrite !Rabs_mult.
  rewrite (Rabs_right (PI / 180)) by lra.
  rewrite (Rabs_right earthRadius) by (unfold earthRadius; lra).
  pose proof (Rabs_pos (lat - lat0)) as dlat.
  pose proof (Rabs_pos (lon - lon0)) as dlon.
  pose proof (COS_bound (lat0 * (PI / 180))) as [c_low c_high].
  assert (slope : Rabs (cos (lat0 * (PI / 180))) <= 1) by (apply Rabs_le; lra).
  pose proof (Rabs_pos (cos (lat0 * (PI / 180)))) as slope_pos.
  unfold earthRadius. repeat split; try nra.
  assert (along : Rabs (lon - lon0) * (PI / 180) * 6371000
                  <= 111493 * Rabs (lon - lon0)) by nra.
  assert (0 <= Rabs (lon - lon0) * (PI / 180) * 6371000) by nra.
  nra.
Qed.

(** X3. Offsets chain: the difference between the offsets of two targets
    from one origin is, in [z], the offset of the second target from the
    first, whatever the origin, and in [x] the offset of the second from a
    point at the first's longitude on the origin's parallel. *)
Theorem latLonToOffset_difference
  (lat0 lon0 lat_a lon_a lat_b lon_b : number) :
  vz (latLonToOffset lat0 lon0 lat_b lon_b)
  - vz (latLonToOffset lat0 lon0 lat_a lon_a)
  = vz (latLonToOffset lat_a lon_a lat_b lon_b) /\
  vx (latLonToOffset lat0 lon0 lat_b lon_b)
  - vx (latLonToOffset lat0 lon0 lat_a lon_a)
  = vx (latLonToOffset lat0 lon_a lat_b lon_b).
Proof.
  rewrite !latLonToOffset_x, !latLonToOffset_z.
  unfold degToRad. split; ring.
Qed.

End ProjectorLaws.

(** ** Where the objects are placed *)

Section Constellation.
Local Open Scope R_scope.
Import App Layout.

(** X4. In [App] the positions of the six objects relative to the user
    marker are the same for every fix: each object sits at the projection
    of its offset in degrees, taken on the parallel of [WORLD_ORIGIN]. *)
Theorem constellation_same_for_every_fix
  (latitude longitude : number) (st : state) :
  relativeToFirst (placed (render (onPosition latitude longitude st)))
  = map (fun d => Geo.latLonToOffset (fst WORLD_ORIGIN) 0
                    (fst WORLD_ORIGIN + fst d) (snd d))
        [ (0, 0); (0.00005, 0); (0.0001, 0.0001); (0.00001, 0.00001);
          (0.00002, 0.00002); (0, 0.00005) ].
Proof.
  unfold relativeToFirst, placed, render, minus, Geo.latLonToOffset, vx, vy, vz.
  simpl. repeat (f_equal; try ring).
Qed.

(** X5. In the earlier variant, whatever the fix between the poles, the
    monk is rendered due north of the viewer, [z] within 0.1 of [-5.55]
    and [x = 0], and the button due east, [z = 0] and [x] between 0 and
    5.6. *)
Theorem legacy_constellation (latitude longitude : number) (st : state) :
  -90 <= latitude <= 90 ->
  exists north east : number,
    placed (Legacy.render (Legacy.onPosition latitude longitude st))
    = [ (0, 0, north); (east, 0, 0) ] /\
    Rabs (north - (- 5.55)) < 0.1 /\
    0 <= east <= 5.6.
Proof.
  intros [south_of north_of].
  exists (- (0.00005 * (PI / 180) * Geo.earthRadius)).
  exists (0.00005 * (PI / 180) * Geo.earthRadius * cos (latitude * PI / 180)).
  pose proof PI_above_313 as low. pose proof PI_below_315 as high.
  split; [| split].
  - unfold placed, Legacy.render. simpl. unfold Geo.latLonToOffset.
    repeat (f_equal; try ring).
  - unfold Geo.earthRadius. apply Rabs_def1; lra.
  - pose proof (COS_bound (latitude * PI / 180)) as [_ c_high].
    assert (c_low : 0 <= cos (latitude * PI / 180)).
    { apply cos_ge_0; nra. }
    unfold Geo.earthRadius. split; nra.
Qed.

Lemma legacy_constellation_witness :
  -90 <= 12.7489708 <= 90 /\
  exists north east : number,
    placed (Legacy.render (Legacy.onPosition 12.7489708 80.1988392 mount))
    = [ (0, 0, north); (east, 0, 0) ] /\
    Rabs (north - (- 5.55)) < 0.1 /\
    0 <= east <= 5.6.
Proof.
  split; [lra |].
  apply (legacy_constellation 12.7489708 80.1988392 mount). lra.
Defined.

End Constellation.

(** ** The hook and its listeners *)

Section HookLaws.
Local Open Scope R_scope.
Import Calibrator.

Lemma reachable_cases (tr : list action) :
  run tr mount = mount \/
  (exists v, run tr mount = pendingOf v) \/
  (exists v, run tr mount = calibratedOf v).
Proof.
  pose proof (run_phase tr mount uncalibrated) as reach.
  destruct reach as [| v | v]; eauto.
Qed.

(** X6. Listeners never accumulate: in every state the hook can reach,
    [window] holds at most one listener per event type, and each of them is
    the closure of the latest effect run. *)
Theorem listeners_never_accumulate (tr : list action) :
  let hk := run tr mount in
  (forall ty : eventType,
      List.length
        (List.filter (fun entry => eventType_eqb ty (fst entry)) (window hk))
      <= 1)%nat /\
  (forall entry : eventType * closure,
      In entry (window hk) -> live hk = Some (snd entry)).
Proof.
  intro hk. unfold hk.
  destruct (reachable_cases tr) as [-> | [[v ->] | [v ->]]]; split;
    try (intros [|]; simpl; lia);
    simpl; intros entry listed;
    repeat (destruct listed as [<- | listed]; [reflexivity |]);
    contradiction.
Qed.

(** X7. Unmounting removes everything: whatever happened before, the
    function returned by the effect leaves no listener on [window], keeps
    the heading, and running it again changes nothing. *)
Theorem cleanup_removes_listeners (tr : list action) :
  let hk := run tr mount in
  window (cleanup hk) = [] /\
  initialHeading (cleanup hk) = initialHeading hk /\
  cleanup (cleanup hk) = cleanup hk.
Proof.
  intro hk. unfold hk.
  destruct (reachable_cases tr) as [-> | [[v ->] | [v ->]]];
    repeat split.
Qed.

(** X8. The two event sources are treated alike: in every reachable state,
    a sample has the same effect whether it arrives as
    [deviceorientationabsolute] or as [deviceorientation]. *)
Theorem sources_alike (tr : list action) (e : sample) :
  dispatch deviceorientationabsolute e (run tr mount)
  = dispatch deviceorientation e (run tr mount).
Proof.
  destruct (reachable_cases tr) as [-> | [[v ->] | [v ->]]].
  - rewrite !dispatch_mount. reflexivity.
  - reflexivity.
  - rewrite !dispatch_calibrated. reflexivity.
Qed.

End HookLaws.

(** ** The session as a whole *)

Section SessionLaws.
Local Open Scope R_scope.
Import App Overlay.

(** The hook only sees the orientation events and its own renders. *)
Lemma hookState_run (tr : list action) (st : state) :
  hookState (run tr st) = Calibrator.run (hookTrace tr) (hookState st).
Proof.
  revert st. induction tr as [| a tr IH]; intro st; [reflexivity |].
  simpl. rewrite IH.
  destruct a as [ty e | | | latitude longitude |]; simpl; try reflexivity.
  destruct (headingEffect_keeps st) as (_ & _ & ->). reflexivity.
Qed.

(** Only the success callback writes [origin] and [objects], and it
    overwrites both. *)
Lemma run_fixes (tr : list action) (st : state) :
  origin (run tr st)
  = match lastFix tr with
    | Some found => Some found
    | None => origin st
    end /\
  objects (run tr st)
  = match lastFix tr with
    | Some (latitude, longitude) => objects (onPosition latitude longitude st)
    | None => objects st
    end.
Proof.
  revert st. induction tr as [| a tr IH]; intro st; [split; reflexivity |].
  simpl. destruct (IH (step st a)) as [-> ->].
  destruct (lastFix tr) as [[latitude longitude] |]; [split; reflexivity |].
  destruct a as [ty e | | | latitude longitude |]; simpl;
    try (split; reflexivity).
  destruct (headingEffect_keeps st) as (-> & -> & _). split; reflexivity.
Qed.

(** X9. [origin] and [objects] are those of the last call of the success
    callback: every fix overwrites [origin] with its coordinate and
    [objects] with its own six objects, so [objects] never grows, and
    errors, orientation events, renders and the heading effect leave both
    as they are. *)
Theorem last_fix_decides (tr : list action) :
  origin (run tr mount) = lastFix tr /\
  objects (run tr mount)
  = match lastFix tr with
    | Some (latitude, longitude) => objects (onPosition latitude longitude mount)
    | None => []
    end /\
  (List.length (objects (run tr mount)) = 0%nat \/
   List.length (objects (run tr mount)) = 6%nat).
Proof.
  destruct (run_fixes tr mount) as [place things].
  rewrite place, things.
  destruct (lastFix tr) as [[latitude longitude] |]; simpl; auto.
Qed.

(** X10. [App] returns the placeholder ["Getting GPS…"] exactly as long as
    no fix has arrived: an error callback does not change what is shown,
    and from the first fix on the scene is shown whatever happens later,
    errors included. *)
Theorem placeholder_until_fix (tr : list action) :
  (view (run tr mount) = GettingGPS <-> lastFix tr = None) /\
  view (step (run tr mount) PositionError) = view (run tr mount) /\
  (forall (latitude longitude : number) (later : list action),
      view (run (tr ++ Position latitude longitude :: later) mount)
      <> GettingGPS).
Proof.
  assert (waits : forall t, view (run t mount) = GettingGPS
                            <-> lastFix t = None).
  { intro t. unfold view, render.
    destruct (run_fixes t mount) as [-> _].
    destruct (lastFix t); simpl; split; intro given;
      try reflexivity; discriminate. }
  split; [apply waits |]. split; [reflexivity |].
  intros latitude longitude later shown. apply waits in shown.
  clear waits. induction tr as [| a tr IH].
  - simpl in shown. destruct (lastFix later); discriminate.
  - apply IH. simpl in shown.
    destruct (lastFix (tr ++ Position latitude longitude :: later));
      [discriminate | reflexivity].
Qed.

(** X11. Geolocation does not disturb calibration: the heading [App] gets
    from the hook is the compass value of the first usable orientation
    sample of the session, wherever fixes and errors fall in between. *)
Theorem heading_ignores_geolocation (tr : list action) :
  heading (settle (run tr mount)) = Calibrator.firstCompass (hookTrace tr).
Proof.
  rewrite heading_settle, hookState_run. apply run_mount.
Qed.

Lemma step_initialHeading (st : state) (a : action) (v : number) :
  initialHeading st = Some v -> initialHeading (step st a) = Some v.
Proof.
  intro taken.
  destruct a as [ty e | | | latitude longitude |]; simpl; try assumption.
  unfold headingEffect. rewrite taken, andb_false_r. exact taken.
Qed.

Lemma run_initialHeading (later : list action) (st : state) (v : number) :
  initialHeading st = Some v -> initialHeading (run later st) = Some v.
Proof.
  revert st. induction later as [| a later IH]; intros st taken; [exact taken |].
  simpl. apply IH, step_initialHeading, taken.
Qed.

(** X12. [App] captures the heading once: as soon as its own
    [initialHeading] holds a value, that value is the non-zero heading the
    hook returns, and nothing that happens later changes it. *)
Theorem initialHeading_captured_once (tr later : list action) (v : number) :
  initialHeading (run tr mount) = Some v ->
  v <> 0 /\
  heading (run tr mount) = Some v /\
  initialHeading (run later (run tr mount)) = Some v.
Proof.
  intro taken.
  destruct (run_coherent tr mount mount_coherent) as [_ copy].
  rewrite taken in copy.
  destruct copy as [contra | [same usable]]; [discriminate |].
  rewrite <- same in usable. apply truthy_Some in usable as (h & is_h & nz).
  injection is_h as ->.
  split; [exact nz |]. split; [symmetry; exact same |].
  apply run_initialHeading, taken.
Qed.

Lemma captured_after_quarter_turn :
  initialHeading
    (run [ Orientation Calibrator.deviceorientation
             {| Calibrator.webkitCompassHeading := None;
                Calibrator.alpha := Some 270 |};
           RenderHook; HeadingEffect ] mount)
  = Some (360 - 270).
Proof.
  simpl. unfold headingEffect, heading; simpl.
  destruct (Req_dec_T (360 - 270) 0); [lra | reflexivity].
Qed.

Lemma initialHeading_captured_once_witness :
  let quarter := {| Calibrator.webkitCompassHeading := None;
                    Calibrator.alpha := Some 270 |} in
  let half := {| Calibrator.webkitCompassHeading := None;
                 Calibrator.alpha := Some 180 |} in
  let tr := [ Orientation Calibrator.deviceorientation quarter;
              RenderHook; HeadingEffect ] in
  initialHeading (run tr mount) = Some (360 - 270) /\
  initialHeading
    (run [ Orientation Calibrator.deviceorientationabsolute half;
           RenderHook; HeadingEffect; Position 10 20 ] (run tr mount))
  = Some (360 - 270).
Proof.
  intros quarter half tr.
  split; [exact captured_after_quarter_turn |].
  exact (proj2 (proj2 (initialHeading_captured_once tr _ (360 - 270)
                         captured_after_quarter_turn))).
Defined.

Lemma settle_fresh (st : state) :
  initialHeading st = None ->
  initialHeading (settle st)
  = if truthy (Calibrator.useDeviceHeading (hookState st))
    then Calibrator.useDeviceHeading (hookState st)
    else None.
Proof.
  intro fresh. unfold settle, headingEffect, heading; simpl.
  rewrite fresh, andb_true_r.
  fold (Calibrator.useDeviceHeading (hookState st)).
  destruct (truthy (Calibrator.useDeviceHeading (hookState st)));
    [reflexivity | exact fresh].
Qed.

(** X13. Calibrating from [alpha]: when the first sample has no usable
    compass heading and an [alpha] in [[0, 360)], the heading is
    [360 - alpha], which lies in [(0, 360]] - an [alpha] of 0 gives 360,
    not 0.  Being non-zero it is always captured by [App], and the overlay
    shows it. *)
Theorem alpha_heading_range
  (ty : Calibrator.eventType) (reported : option number) (a : number) :
  truthy reported = false ->
  0 <= a < 360 ->
  let e := {| Calibrator.webkitCompassHeading := reported;
              Calibrator.alpha := Some a |} in
  let st := settle (step mount (Orientation ty e)) in
  0 < 360 - a <= 360 /\
  heading st = Some (360 - a) /\
  initialHeading st = Some (360 - a) /\
  text (CompassOverlay (heading st)) = Degrees (360 - a).
Proof.
  intros unusable [low high] e st.
  assert (from_hook : Calibrator.useDeviceHeading
                        (hookState (step mount (Orientation ty e)))
                      = Some (360 - a)).
  { simpl. rewrite dispatch_mount. unfold Calibrator.compassOf; simpl.
    rewrite unusable. reflexivity. }
  assert (seen : heading st = Some (360 - a)).
  { unfold st. rewrite heading_settle. exact from_hook. }
  split; [lra |]. split; [exact seen |]. split.
  - unfold st. rewrite settle_fresh by reflexivity.
    rewrite from_hook, truthy_nonzero by lra. reflexivity.
  - rewrite seen. reflexivity.
Qed.

Lemma alpha_heading_range_witness :
  let north := {| Calibrator.webkitCompassHeading := None;
                  Calibrator.alpha := Some 0 |} in
  truthy None = false /\
  0 <= 0 < 360 /\
  heading (settle (step mount (Orientation Calibrator.deviceorientation north)))
  = Some (360 - 0).
Proof.
  intro north.
  assert (range : 0 <= 0 < 360) by lra.
  split; [reflexivity |]. split; [exact range |].
  exact (proj1 (proj2 (alpha_heading_range Calibrator.deviceorientation
                         None 0 eq_refl range))).
Defined.

(** X14. Overlay and scene agree: whenever [App] shows the scene in a
    settled state, the needle of the overlay is turned by the opposite of
    the scene yaw, and the text is ["Calibrating…"] exactly when no usable
    orientation sample has arrived, else the heading of the first one. *)
Theorem overlay_matches_scene
  (tr : list action) (sc : scene) (ov : overlay) :
  view (settle (run tr mount)) = Shown sc ov ->
  needle ov = - sceneYawDegrees sc /\
  text ov = match Calibrator.firstCompass (hookTrace tr) with
            | None => Calibrating
            | Some c => Degrees c
            end.
Proof.
  unfold view. intro shown.
  destruct (render (settle (run tr mount))) as [sc' |] eqn:rendered;
    [| discriminate].
  injection shown as <- <-.
  split.
  - unfold render in rendered.
    destruct (origin (settle (run tr mount))); [| discriminate].
    injection rendered as <-.
    unfold sceneYawDegrees, vy; simpl.
    rewrite (settle_copy _ (run_coherent tr mount mount_coherent)).
    replace (- Geo.degToRad (orZero (heading (settle (run tr mount)))))
      with (Geo.degToRad (- orZero (heading (settle (run tr mount)))))
      by (unfold Geo.degToRad; ring).
    rewrite radToDeg_degToRad. ring.
  - simpl. rewrite heading_settle, hookState_run, run_mount. reflexivity.
Qed.

Lemma overlay_matches_scene_witness :
  exists (sc : scene) (ov : overlay),
    view (settle (run [Position 10 20] mount)) = Shown sc ov /\
    needle ov = - sceneYawDegrees sc /\
    text ov = Calibrating.
Proof.
  assert (shown : exists sc ov,
             view (settle (run [Position 10 20] mount)) = Shown sc ov).
  { unfold view, render. rewrite origin_settle. simpl. eauto. }
  destruct shown as (sc & ov & shown). exists sc, ov.
  split; [exact shown |].
  exact (overlay_matches_scene [Position 10 20] sc ov shown).
Defined.

End SessionLaws.

Section HexDigits.
Import Widget.

Lemma hexDigit_hexChar (d : N) :
  (d < 16)%N -> Backend.hexDigit (hexChar d) = Some d.
Proof.
  intro small.
  assert (listed : In d [0; 1; 2; 3; 4; 5; 6; 7; 8; 9; 10; 11; 12; 13; 14; 15]%N).
  { simpl. lia. }
  repeat (destruct listed as [<- | listed]; [reflexivity |]).
  contradiction.
Qed.

Lemma toHex_length_ge (fuel : nat) (n : N) (acc : string) :
  (String.length acc <= String.length (toHex fuel n acc))%nat.
Proof.
  revert n acc. induction fuel as [| fuel IH]; intros n acc; simpl; [lia |].
  destruct (n / 16 =? 0)%N; simpl; [lia |].
  specialize (IH (n / 16)%N (String (hexChar (n mod 16)) acc)).
  simpl in IH. lia.
Qed.

Lemma toHex_length_pos (fuel : nat) (n : N) (acc : string) :
  fuel <> O ->
  (S (String.length acc) <= String.length (toHex fuel n acc))%nat.
Proof.
  destruct fuel as [| fuel]; [contradiction |]. intros _. simpl.
  destruct (n / 16 =? 0)%N; simpl; [lia |].
  pose proof (toHex_length_ge fuel (n / 16)%N (String (hexChar (n mod 16)) acc))
    as grows.
  simpl in grows. lia.
Qed.

Lemma sixteenth (n k : N) :
  (1 <= k)%N -> (n < 16 ^ k)%N -> (n / 16 < 16 ^ (k - 1))%N.
Proof.
  intros pos below.
  replace k with (N.succ (k - 1)) in below by lia.
  rewrite N.pow_succ_r' in below.
  apply N.Div0.div_lt_upper_bound. exact below.
Qed.

Lemma toHex_length_le (fuel : nat) (k n : N) (acc : string) :
  (1 <= k)%N -> (n < 16 ^ k)%N ->
  (String.length (toHex fuel n acc) <= String.length acc + N.to_nat k)%nat.
Proof.
  revert k n acc. induction fuel as [| fuel IH]; intros k n acc pos below;
    simpl; [lia |].
  destruct (n / 16 =? 0)%N eqn:last; simpl; [lia |].
  apply N.eqb_neq in last.
  assert (two : (2 <= k)%N).
  { destruct (N.eq_dec k 1%N) as [-> |]; [| lia].
    exfalso. apply last. apply N.div_small. exact below. }
  specialize (IH (k - 1)%N (n / 16)%N (String (hexChar (n mod 16)) acc)
                ltac:(lia) (sixteenth n k pos below)).
  simpl in IH. lia.
Qed.

Lemma toHex_value (fuel : nat) (n : N) (acc : string) (a : N) :
  (n < 16 ^ N.of_nat fuel)%N -> fuel <> O ->
  Backend.hexValue a (toHex fuel n acc)
  = Backend.hexValue
      (a * 16 ^ N.of_nat (String.length (toHex fuel n acc) - String.length acc)
       + n)%N acc.
Proof.
  revert n acc a. induction fuel as [| fuel IH]; intros n acc a below some;
    [contradiction |].
  simpl toHex.
  assert (digit : Backend.hexDigit (hexChar (n mod 16)) = Some (n mod 16)%N).
  { apply hexDigit_hexChar. apply N.mod_lt. discriminate. }
  pose proof (N.div_mod n 16 ltac:(discriminate)) as split.
  destruct (n / 16 =? 0)%N eqn:last.
  - apply N.eqb_eq in last.
    simpl. rewrite digit.
    replace (S (String.length acc) - String.length acc)%nat with 1%nat by lia.
    f_equal. simpl N.of_nat. lia.
  - apply N.eqb_neq in last.
    assert (more : fuel <> O).
    { intros ->. simpl in below. apply last. apply N.div_small. exact below. }
    assert (below' : (n / 16 < 16 ^ N.of_nat fuel)%N).
    { replace (N.of_nat fuel) with (N.of_nat (S fuel) - 1)%N by lia.
      apply sixteenth; [lia | exact below]. }
    rewrite (IH (n / 16)%N (String (hexChar (n mod 16)) acc) a below' more).
    pose proof (toHex_length_pos fuel (n / 16)%N
                  (String (hexChar (n mod 16)) acc) more) as grows.
    simpl in grows. simpl String.length.
    set (len := String.length (toHex fuel (n / 16) (String (hexChar (n mod 16)) acc))) in *.
    simpl Backend.hexValue at 1. rewrite digit.
    f_equal.
    replace (N.of_nat (len - String.length acc))
      with (N.succ (N.of_nat (len - S (String.length acc)))) by lia.
    rewrite N.pow_succ_r'. lia.
Qed.

End HexDigits.

Section HexStrings.
Import Widget.

Lemma toString16_fuel (n : N) :
  (n < 16 ^ N.of_nat (S (N.to_nat (N.log2 n))))%N.
Proof.
  replace (N.of_nat (S (N.to_nat (N.log2 n)))) with (N.succ (N.log2 n)) by lia.
  apply N.lt_le_trans with (2 ^ N.succ (N.log2 n))%N.
  - destruct n as [| p]; [reflexivity |]. apply N.log2_spec. reflexivity.
  - apply N.pow_le_mono_l. lia.
Qed.

Lemma hexDigit_small (c : ascii) (d : N) :
  Backend.hexDigit c = Some d -> (d < 16)%N.
Proof.
  unfold Backend.hexDigit.
  repeat match goal with
         | |- context [(?x <=? ?y)%N] => destruct (N.leb_spec x y)
         end; simpl; intro given; try discriminate;
    injection given as <-; lia.
Qed.

Lemma hexValue_below (s : string) (a v : N) :
  Backend.hexValue a s = Some v ->
  (v < (a + 1) * 16 ^ N.of_nat (String.length s))%N.
Proof.
  revert a. induction s as [| c rest IH]; intros a; simpl Backend.hexValue.
  - intro given; injection given as <-. simpl. lia.
  - destruct (Backend.hexDigit c) as [d |] eqn:digit; [| discriminate].
    intro given. apply IH in given. apply hexDigit_small in digit.
    replace (N.of_nat (String.length (String c rest)))
      with (N.succ (N.of_nat (String.length rest))) by (simpl; lia).
    rewrite N.pow_succ_r'. nia.
Qed.

(** The hexadecimal string of [n] reads back as [n], has at least one
    digit, and no more digits than [n] needs. *)
Lemma toString16_spec (n : N) :
  Backend.hexValue 0 (toString16 n) = Some n /\
  (1 <= String.length (toString16 n))%nat /\
  (forall k : N, (1 <= k)%N -> (n < 16 ^ k)%N ->
                 (String.length (toString16 n) <= N.to_nat k)%nat) /\
  (n < 16 ^ N.of_nat (String.length (toString16 n)))%N.
Proof.
  assert (value : Backend.hexValue 0 (toString16 n) = Some n).
  { unfold toString16.
    rewrite (toHex_value _ n "" 0 (toString16_fuel n)) by discriminate.
    simpl. f_equal. }
  split; [exact value |]. split; [| split].
  - unfold toString16.
    pose proof (toHex_length_pos (S (N.to_nat (N.log2 n))) n ""
                  ltac:(discriminate)) as grows.
    simpl String.length in grows at 1. lia.
  - intros k pos below. unfold toString16.
    pose proof (toHex_length_le (S (N.to_nat (N.log2 n))) k n "" pos below)
      as short.
    simpl String.length in short at 2. lia.
  - apply hexValue_below in value. lia.
Qed.

End HexStrings.

(** ** The button *)

Section ButtonLaws.
Local Open Scope R_scope.
Import Widget.

(** [Math.floor] of a product below 16777215. *)
Lemma floor_range (p : number) :
  0 <= p < 16777215 ->
  (0 <= Int_part p <= 16777214)%Z /\
  IZR (Int_part p) <= p < IZR (Int_part p) + 1.
Proof.
  intros [low high].
  destruct (base_Int_part p) as [under over].
  assert (above : (-1 < Int_part p)%Z) by (apply lt_IZR; lra).
  assert (below : (Int_part p < 16777215)%Z) by (apply lt_IZR; lra).
  split; [lia | lra].
Qed.

Lemma within (u v : R) : Rabs u <= v -> - v <= u <= v.
Proof. unfold Rabs. destruct (Rcase_abs u); lra. Qed.

(** The rounded product of a [random] below 1, the largest binary64 value
    of which is [1 - 2^-53], stays below 16777215: the representable
    number next below 16777215 is nearer to the exact product. *)
Lemma product_range (fl : number -> number) (random : number) :
  nearest fl 0 ->
  nearest fl (16777215 - / 536870912) ->
  0 <= random <= 1 - / 9007199254740992 ->
  0 <= fl (random * 16777215) < 16777215.
Proof.
  intros at_zero at_top [low high].
  assert (inside : 0 <= random * 16777215 <= 16777215) by lra.
  pose proof (within _ _ (at_zero _ inside)) as [from_zero _].
  pose proof (within _ _ (at_top _ inside)) as [_ from_top].
  split.
  - rewrite Rabs_left1 in from_zero by lra. lra.
  - unfold Rabs in from_top.
    destruct (Rcase_abs (16777215 - / 536870912 - random * 16777215)); lra.
Qed.

(** X15. For every [Math.random()], a binary64 number from 0 up to
    [1 - 2^-53], a selection gives the button a colour of the form ["#"]
    followed by one to six hexadecimal digits whose value is the integer
    part of the rounded product; that value is at most 16777214, so the
    colour is never ["#ffffff"]; [hover] is untouched.  Of the rounding it
    is used that 0 and [16777215 - 2^-29] are representable. *)
Theorem button_color_digits
  (fl : number -> number) (random : number) (b : button) :
  nearest fl 0 ->
  nearest fl (16777215 - / 536870912) ->
  0 <= random <= 1 - / 9007199254740992 ->
  exists (digits : string) (n : N),
    color (onSelect fl random b) = String "#" digits /\
    (1 <= String.length digits <= 6)%nat /\
    Backend.hexValue 0 digits = Some n /\
    IZR (Z.of_N n) <= fl (random * 16777215) < IZR (Z.of_N n) + 1 /\
    (n <= 16777214)%N /\
    digits <> "ffffff"%string /\
    hover (onSelect fl random b) = hover b.
Proof.
  intros at_zero at_top unit.
  pose proof (product_range fl random at_zero at_top unit) as inside.
  destruct (floor_range _ inside) as [[low high] bracket].
  set (n := Z.to_N (Int_part (fl (random * 16777215)))).
  assert (back : Z.of_N n = Int_part (fl (random * 16777215)))
    by (unfold n; lia).
  destruct (toString16_spec n) as (value & some & short & _).
  exists (toString16 n), n.
  split; [reflexivity |]. split.
  - split; [exact some |]. apply (short 6%N); [lia |]. simpl. lia.
  - split; [exact value |]. split; [rewrite back; exact bracket |].
    split; [lia |]. split; [| reflexivity].
    intro white. rewrite white in value.
    change (Backend.hexValue 0 "ffffff") with (Some 16777215%N) in value.
    injection value as value. lia.
Qed.

(** [gridRound] is a rounding to nearest for every multiple of [2^-29]. *)
Lemma gridRound_nearest (j : Z) (x : number) :
  Rabs (gridRound x - x) <= Rabs (IZR j / 536870912 - x).
Proof.
  unfold gridRound.
  set (k := Int_part (x * 536870912 + / 2)).
  destruct (base_Int_part (x * 536870912 + / 2)) as [under over].
  fold k in under, over.
  destruct (Z.eq_dec j k) as [-> | other]; [lra |].
  assert (apart : IZR j <= IZR k - 1 \/ IZR k + 1 <= IZR j).
  { destruct (Z_lt_le_dec j k) as [less | more].
    - left. rewrite <- minus_IZR. apply IZR_le. lia.
    - right. rewrite <- plus_IZR. apply IZR_le. lia. }
  unfold Rabs.
  destruct (Rcase_abs (IZR k / 536870912 - x));
    destruct (Rcase_abs (IZR j / 536870912 - x));
    destruct apart; lra.
Qed.

Lemma gridRound_representable :
  nearest gridRound 0 /\
  nearest gridRound (16777215 - / 536870912) /\
  nearest gridRound 1048576 /\
  nearest gridRound 1048575.9375.
Proof.
  repeat split; intros x _.
  - replace 0 with (IZR 0 / 536870912) by lra. apply gridRound_nearest.
  - replace (16777215 - / 536870912)
      with (IZR 9007198717870079 / 536870912) by lra.
    apply gridRound_nearest.
  - replace 1048576 with (IZR 562949953421312 / 536870912) by lra.
    apply gridRound_nearest.
  - replace 1048575.9375 with (IZR 562949919866880 / 536870912) by lra.
    apply gridRound_nearest.
Qed.

Lemma button_color_digits_witness :
  nearest gridRound 0 /\
  nearest gridRound (16777215 - / 536870912) /\
  0 <= 0.37 <= 1 - / 9007199254740992 /\
  exists (digits : string) (n : N),
    color (onSelect gridRound 0.37 initial) = String "#" digits /\
    (1 <= String.length digits <= 6)%nat /\
    Backend.hexValue 0 digits = Some n /\
    IZR (Z.of_N n) <= gridRound (0.37 * 16777215) < IZR (Z.of_N n) + 1 /\
    (n <= 16777214)%N /\
    digits <> "ffffff"%string /\
    hover (onSelect gridRound 0.37 initial) = hover initial.
Proof.
  destruct gridRound_representable as (at_zero & at_top & _).
  assert (unit : 0 <= 0.37 <= 1 - / 9007199254740992) by lra.
  split; [exact at_zero |]. split; [exact at_top |]. split; [exact unit |].
  exact (button_color_digits gridRound 0.37 initial at_zero at_top unit).
Defined.

(** X16. The colour has all six digits exactly when the rounded product
    reaches 1048576.  This is so for every [Math.random()] from
    [1048576 / 16777215] on, and never so up to [0.0625]; in the narrow
    gap between the two it depends on the rounding of the product.  Below
    six digits the string is shorter than ["#rrggbb"].  Of the rounding
    it is used that 0, [1048575.9375], 1048576 and [16777215 - 2^-29] are
    representable. *)
Theorem button_color_six_digits
  (fl : number -> number) (random : number) (b : button) :
  nearest fl 0 ->
  nearest fl (16777215 - / 536870912) ->
  nearest fl 1048576 ->
  nearest fl 1048575.9375 ->
  0 <= random <= 1 - / 9007199254740992 ->
  (String.length (color (onSelect fl random b)) = 7%nat
   <-> 1048576 <= fl (random * 16777215)) /\
  (1048576 / 16777215 <= random ->
   String.length (color (onSelect fl random b)) = 7%nat) /\
  (random <= 0.0625 ->
   (String.length (color (onSelect fl random b)) <= 6)%nat) /\
  (String.length (color (onSelect fl random b)) <= 7)%nat.
Proof.
  intros at_zero at_top at_step below_step unit.
  pose proof (product_range fl random at_zero at_top unit) as inside.
  destruct (floor_range _ inside) as [[low high] [under over]].
  set (p := fl (random * 16777215)) in *.
  set (n := Z.to_N (Int_part p)).
  assert (back : Z.of_N n = Int_part p) by (unfold n; lia).
  rewrite <- back in under, over.
  destruct (toString16_spec n) as (_ & some & short & enough).
  assert (six : (String.length (toString16 n) <= 6)%nat).
  { apply (short 6%N); [lia |]. simpl. lia. }
  change (color (onSelect fl random b)) with (String "#" (toString16 n)).
  simpl String.length.
  assert (full_iff : S (String.length (toString16 n)) = 7%nat
                     <-> 1048576 <= p).
  { split.
    - intro full.
      destruct (N.lt_ge_cases n 1048576) as [few | many].
      + specialize (short 5%N ltac:(lia) few). simpl in short. lia.
      + assert (IZR 1048576 <= IZR (Z.of_N n)) by (apply IZR_le; lia).
        lra.
    - intro large.
      assert (many : (1048576 <= n)%N).
      { assert (bound : (1048576 < Z.of_N n + 1)%Z).
        { apply lt_IZR. rewrite plus_IZR. lra. }
        lia. }
      destruct (Nat.eq_dec (String.length (toString16 n)) 6%nat)
        as [-> | less]; [reflexivity |].
      exfalso.
      assert (small : (n < 16 ^ 5)%N).
      { apply N.lt_le_trans with (1 := enough).
        apply N.pow_le_mono_r; lia. }
      simpl in small. lia. }
  assert (range : 0 <= random * 16777215 <= 16777215) by lra.
  split; [exact full_iff |]. split; [| split; [| lia]].
  - intro large. apply full_iff.
    pose proof (within _ _ (at_step _ range)) as [from_step _].
    fold p in from_step.
    rewrite Rabs_left1 in from_step by lra. lra.
  - intro small.
    assert (p < 1048576).
    { pose proof (within _ _ (below_step _ range)) as [_ from_below].
      fold p in from_below.
      rewrite Rabs_right in from_below by lra. lra. }
    destruct (Nat.eq_dec (S (String.length (toString16 n))) 7%nat)
      as [full | less]; [| lia].
    apply full_iff in full. lra.
Qed.

Lemma button_color_six_digits_witness :
  nearest gridRound 0 /\
  nearest gridRound (16777215 - / 536870912) /\
  nearest gridRound 1048576 /\
  nearest gridRound 1048575.9375 /\
  0 <= 0.37 <= 1 - / 9007199254740992 /\
  String.length (color (onSelect gridRound 0.37 initial)) = 7%nat.
Proof.
  destruct gridRound_representable
    as (at_zero & at_top & at_step & below_step).
  assert (unit : 0 <= 0.37 <= 1 - / 9007199254740992) by lra.
  repeat (split; [assumption |]).
  apply (button_color_six_digits gridRound 0.37 initial
           at_zero at_top at_step below_step unit).
  lra.
Defined.

End ButtonLaws.

(** ** The routes together *)

Section ApiLaws.
Import Backend Api.

(** [d] is at least as new as [d']. *)
Let notOlder (d d' : ObjectId * ARPoint) : Prop :=
  (createdAt (snd d') <= createdAt (snd d))%Z.

Lemma insertNewestFirst_perm (d : ObjectId * ARPoint)
  (l : list (ObjectId * ARPoint)) :
  Permutation (insertNewestFirst d l) (d :: l).
Proof.
  induction l as [| d' rest IH]; simpl; [reflexivity |].
  destruct (_ <=? _)%Z; [reflexivity |].
  rewrite IH. apply perm_swap.
Qed.

Lemma sortNewestFirst_perm (l : list (ObjectId * ARPoint)) :
  Permutation (sortNewestFirst l) l.
Proof.
  induction l as [| d rest IH]; simpl; [reflexivity |].
  rewrite insertNewestFirst_perm, IH. reflexivity.
Qed.

Lemma insertNewestFirst_sorted (d : ObjectId * ARPoint)
  (l : list (ObjectId * ARPoint)) :
  StronglySorted notOlder l -> StronglySorted notOlder (insertNewestFirst d l).
Proof.
  induction 1 as [| d' rest sorted IH older]; simpl.
  - constructor; constructor.
  - destruct (Z.leb_spec (createdAt (snd d')) (createdAt (snd d))) as [le | gt].
    + constructor; [constructor; assumption |].
      constructor; [exact le |].
      eapply Forall_impl; [exact older |].
      intros y below. unfold notOlder in *. lia.
    + constructor; [exact IH |].
      rewrite insertNewestFirst_perm.
      constructor; [unfold notOlder; lia | exact older].
Qed.

Lemma sortNewestFirst_sorted (l : list (ObjectId * ARPoint)) :
  StronglySorted notOlder (sortNewestFirst l).
Proof.
  induction l as [| d rest IH]; simpl; [constructor |].
  apply insertNewestFirst_sorted, IH.
Qed.

Lemma listed_iff_stored (db : gmap N ARPoint) (i : ObjectId) (d : ARPoint) :
  In (i, d) (snd (getARPoints db)) <-> db !! i = Some d.
Proof.
  simpl. rewrite <- elem_of_map_to_list, list_elem_of_In.
  split; apply Permutation_in;
    [| symmetry]; apply sortNewestFirst_perm.
Qed.

(** X17. GET answers 200 with exactly the stored points, each once, the
    most recently created first, and every listed point is one that is
    stored under its id. *)
Theorem get_lists_all_newest_first (db : gmap N ARPoint) :
  fst (getARPoints db) = 200%nat /\
  Permutation (snd (getARPoints db)) (map_to_list db) /\
  List.length (snd (getARPoints db)) = size db /\
  StronglySorted
    (fun d d' => (createdAt (snd d') <= createdAt (snd d))%Z)
    (snd (getARPoints db)) /\
  (forall (i : ObjectId) (d : ARPoint),
      In (i, d) (snd (getARPoints db)) <-> db !! i = Some d).
Proof.
  split; [reflexivity |]. split; [apply sortNewestFirst_perm |].
  split; [| split].
  - simpl. rewrite (Permutation_length (sortNewestFirst_perm _)).
    apply length_map_to_list.
  - apply sortNewestFirst_sorted.
  - apply listed_iff_stored.
Qed.

(** X18. Deleting a stored point and listing again: DELETE answers with
    the success message, and the next GET lists what GET listed before
    without that point - the point is no longer listed, every other point
    is listed exactly as before, and the listing is one entry shorter. *)
Theorem delete_then_get
  (id : string) (oid : ObjectId) (point : ARPoint) (db : gmap N ARPoint) :
  castObjectId id = Some oid ->
  db !! oid = Some point ->
  let db' := snd (deleteARPoint id db) in
  fst (deleteARPoint id db)
  = {| status := 200; message := "Point deleted successfully" |} /\
  Permutation ((oid, point) :: snd (getARPoints db')) (snd (getARPoints db)) /\
  (forall d : ARPoint, ~ In (oid, d) (snd (getARPoints db'))) /\
  (forall (other : ObjectId) (d : ARPoint),
      other <> oid ->
      In (other, d) (snd (getARPoints db'))
      <-> In (other, d) (snd (getARPoints db))).
Proof.
  intros well_formed stored db'.
  assert (shape : deleteARPoint id db
                  = ({| status := 200;
                        message := "Point deleted successfully" |},
                     delete oid db)).
  { unfold deleteARPoint, findByIdAndDelete. rewrite well_formed.
    reflexivity. }
  unfold db'. rewrite shape. simpl fst; simpl snd.
  split; [reflexivity |]. split; [| split].
  - etransitivity; [| symmetry; apply sortNewestFirst_perm].
    etransitivity; [| apply (map_to_list_delete db oid point stored)].
    apply perm_skip, sortNewestFirst_perm.
  - intros d listed. apply listed_iff_stored in listed.
    rewrite lookup_delete_eq in listed. discriminate.
  - intros other d differs.
    assert (same : delete oid db !! other = db !! other)
      by (apply lookup_delete_ne; congruence).
    split; intro listed.
    + apply (listed_iff_stored db). rewrite <- same.
      apply (listed_iff_stored (delete oid db)), listed.
    + apply (listed_iff_stored (delete oid db)). rewrite same.
      apply (listed_iff_stored db), listed.
Qed.

Lemma delete_then_get_witness :
  let well := {| Backend.name := Some "well"%string; Backend.modelUrl := None;
                 Backend.modelType := "monk"; Backend.latitude := None;
                 Backend.longitude := None; createdAt := 1600000000000 |} in
  let gate := {| Backend.name := Some "gate"%string; Backend.modelUrl := None;
                 Backend.modelType := "box"; Backend.latitude := None;
                 Backend.longitude := None; createdAt := 1700000000000 |} in
  let db : gmap N ARPoint := <[ 7%N := gate ]> {[ 5%N := well ]} in
  let db' := snd (deleteARPoint "000000000000000000000007" db) in
  castObjectId "000000000000000000000007" = Some 7%N /\
  db !! 7%N = Some gate /\
  In (5%N, well) (snd (getARPoints db')) /\
  ~ In (7%N, gate) (snd (getARPoints db')).
Proof.
  intros well gate db db'.
  assert (well_formed : castObjectId "000000000000000000000007" = Some 7%N)
    by reflexivity.
  assert (stored : db !! 7%N = Some gate) by apply lookup_insert_eq.
  destruct (delete_then_get "000000000000000000000007" 7%N gate db
              well_formed stored) as (_ & _ & gone & kept).
  split; [exact well_formed |]. split; [exact stored |]. split.
  - apply (kept 5%N well); [discriminate |].
    apply listed_iff_stored. unfold db.
    rewrite lookup_insert_ne by discriminate. apply lookup_singleton_eq.
  - apply gone.
Defined.

(** X19. DELETE is idempotent: repeating the request gives the same answer
    and leaves the collection as the first request left it, for every id. *)
Theorem delete_twice (id : string) (db : gmap N ARPoint) :
  deleteARPoint id (snd (deleteARPoint id db))
  = deleteARPoint id db.
Proof.
  unfold deleteARPoint, findByIdAndDelete.
  destruct (castObjectId id) as [oid |]; simpl; [| reflexivity].
  rewrite delete_delete_eq. reflexivity.
Qed.

(** X21. A point created by POST and then deleted by its id leaves the
    collection as it was before the POST. *)
Theorem post_then_delete
  (b : body) (generated : ObjectId) (now : Z) (id : string)
  (db : gmap N ARPoint) :
  db !! generated = None ->
  castObjectId id = Some generated ->
  snd (deleteARPoint id (snd (postARPoint b generated now db))) = db.
Proof.
  intros fresh well_formed.
  unfold deleteARPoint, findByIdAndDelete. rewrite well_formed. simpl.
  apply delete_insert_id, fresh.
Qed.

Lemma post_then_delete_witness :
  let b := {| Api.name := Some "gate"%string; Api.modelUrl := None;
              Api.latitude := None; Api.longitude := None;
              Api.modelType := None |} in
  exists generated : ObjectId,
    (∅ : gmap N ARPoint) !! generated = None /\
    castObjectId "507f1f77bcf86cd799439011" = Some generated /\
    snd (deleteARPoint "507f1f77bcf86cd799439011"
           (snd (postARPoint b generated 1700000000000 ∅)))
    = ∅.
Proof.
  intro b. eexists. split; [apply lookup_empty |].
  split; [vm_compute; reflexivity |].
  exact (post_then_delete b _ 1700000000000 "507f1f77bcf86cd799439011" ∅
           (lookup_empty _) eq_refl).
Defined.

(** X22. POST answers 201 with the new point, whose [modelType] is the one
    sent or ['box'] when none was sent.  When the point is newer than
    every stored one, the next GET lists it first, followed by what GET
    listed before. *)
Theorem post_then_get
  (b : body) (generated : ObjectId) (now : Z) (db : gmap N ARPoint) :
  db !! generated = None ->
  (forall (i : ObjectId) (d : ARPoint),
      db !! i = Some d -> (createdAt d < now)%Z) ->
  let created := snd (fst (postARPoint b generated now db)) in
  fst (fst (postARPoint b generated now db)) = 201%nat /\
  fst created = generated /\
  Backend.modelType (snd created)
  = match Api.modelType b with Some t => t | None => "box"%string end /\
  exists rest : list (ObjectId * ARPoint),
    snd (getARPoints (snd (postARPoint b generated now db))) = created :: rest /\
    Permutation rest (snd (getARPoints db)).
Proof.
  intros fresh newest created.
  split; [reflexivity |]. split; [reflexivity |]. split; [reflexivity |].
  simpl snd. unfold created; simpl snd; simpl fst.
  set (point := newARPoint b now).
  assert (same : Permutation
                   (sortNewestFirst (map_to_list (<[generated:=point]> db)))
                   ((generated, point) :: map_to_list db)).
  { etransitivity; [apply sortNewestFirst_perm |].
    apply map_to_list_insert, fresh. }
  pose proof (sortNewestFirst_sorted (map_to_list (<[generated:=point]> db)))
    as sorted.
  destruct (sortNewestFirst (map_to_list (<[generated:=point]> db)))
    as [| first rest].
  - apply Permutation_nil in same. discriminate.
  - assert (is_first : first = (generated, point)).
    { assert (somewhere : In (generated, point) (first :: rest)).
      { apply (Permutation_in _ (Permutation_sym same)). left. reflexivity. }
      destruct somewhere as [here | later]; [exact here |].
      assert (listed : In first ((generated, point) :: map_to_list db)).
      { apply (Permutation_in _ same). left. reflexivity. }
      destruct listed as [here | stored]; [symmetry; exact here |].
      exfalso.
      apply StronglySorted_inv in sorted as [_ older].
      rewrite List.Forall_forall in older. specialize (older _ later).
      unfold notOlder in older. simpl in older.
      destruct first as [i d].
      apply list_elem_of_In, elem_of_map_to_list in stored.
      specialize (newest i d stored). simpl in older. lia. }
    subst first. exists rest. split; [reflexivity |].
    apply Permutation_cons_inv in same.
    rewrite same. symmetry. apply sortNewestFirst_perm.
Qed.

Lemma post_then_get_witness :
  let b := {| Api.name := Some "gate"%string; Api.modelUrl := None;
              Api.latitude := None; Api.longitude := None;
              Api.modelType := None |} in
  let old := {| Backend.name := Some "well"%string; Backend.modelUrl := None;
                Backend.modelType := "monk"; Backend.latitude := None;
                Backend.longitude := None; createdAt := 1600000000000 |} in
  let db : gmap N ARPoint := {[ 5%N := old ]} in
  db !! 7%N = None /\
  (forall (i : ObjectId) (d : ARPoint),
      db !! i = Some d -> (createdAt d < 1700000000000)%Z) /\
  exists rest : list (ObjectId * ARPoint),
    snd (getARPoints (snd (postARPoint b 7%N 1700000000000 db)))
    = (7%N, newARPoint b 1700000000000) :: rest /\
    Permutation rest (snd (getARPoints db)).
Proof.
  intros b old db.
  assert (fresh : db !! 7%N = None) by (apply lookup_singleton_ne; discriminate).
  assert (newest : forall (i : ObjectId) (d : ARPoint),
             db !! i = Some d -> (createdAt d < 1700000000000)%Z).
  { intros i d stored. apply lookup_singleton_Some in stored as [_ <-].
    reflexivity. }
  split; [exact fresh |]. split; [exact newest |].
  exact (proj2 (proj2 (proj2 (post_then_get b 7%N 1700000000000 db
                                fresh newest)))).
Defined.

End ApiLaws.
